(** * codebase-mcp: the bundle parsing and extraction engine

    A shallow embedding of the text engine of [src/tools/codebase.ts]:
    the [.codebaseignore] loader, the file-block tokenizer, path
    normalisation and lookup, the line-numbered snippet and the summary
    block of the report, together with the properties of the specification
    that concern them.

    JavaScript strings are sequences of UTF-16 code units; they are modelled
    as lists of code units, so that [trim], the regular expressions and
    [split] see the same characters as the program does. *)

From Stdlib Require Import Decimal String Ascii List NArith ZArith Lia Bool.
From Stdlib Require DecimalNat QArith.
Import ListNotations.

(** ** JavaScript strings and arrays *)

Module JS.

Definition char := N.
Definition jsstring := list char.

(** String literals of the source, written as Rocq strings. *)
Definition lit (s : string) : jsstring :=
  map N_of_ascii (list_ascii_of_string s).

Definition LF : char := 10%N.
Definition CR : char := 13%N.
Definition SPACE : char := 32%N.
Definition DQUOTE : char := 34%N.
Definition HASH : char := 35%N.
Definition COMMA : char := 44%N.
Definition DOT : char := 46%N.
Definition SLASH : char := 47%N.
Definition COLON : char := 58%N.
Definition GT : char := 62%N.
Definition BACKSLASH : char := 92%N.

Fixpoint eqb (s t : jsstring) : bool :=
  match s, t with
  | [], [] => true
  | c :: s', d :: t' => N.eqb c d && eqb s' t'
  | _, _ => false
  end.

(** ECMAScript [LineTerminator]: what [.] of a regular expression without
    the [s] flag refuses. *)
Definition isLineTerminator (c : char) : bool :=
  (N.eqb c 10 || N.eqb c 13 || N.eqb c 8232 || N.eqb c 8233)%N.

(** ECMAScript [WhiteSpace] and [LineTerminator]: what [trim] strips. *)
Definition isWhiteSpace (c : char) : bool :=
  ((N.leb 9 c && N.leb c 13) || N.eqb c 32 || N.eqb c 160 || N.eqb c 5760
   || (N.leb 8192 c && N.leb c 8202) || N.eqb c 8232 || N.eqb c 8233
   || N.eqb c 8239 || N.eqb c 8287 || N.eqb c 12288 || N.eqb c 65279)%N.

Fixpoint dropWhile {A : Type} (p : A -> bool) (l : list A) : list A :=
  match l with
  | [] => []
  | x :: l' => if p x then dropWhile p l' else l
  end.

Definition trimStart (s : jsstring) : jsstring := dropWhile isWhiteSpace s.
Definition trimEnd (s : jsstring) : jsstring :=
  rev (dropWhile isWhiteSpace (rev s)).
Definition trim (s : jsstring) : jsstring := trimEnd (trimStart s).

(** [s.startsWith(p)] and, when it holds, the rest of [s]. *)
Fixpoint stripPrefix (p s : jsstring) : option jsstring :=
  match p, s with
  | [], _ => Some s
  | c :: p', d :: s' => if N.eqb c d then stripPrefix p' s' else None
  | _ :: _, [] => None
  end.

Definition startsWith (s p : jsstring) : bool :=
  match stripPrefix p s with Some _ => true | None => false end.

(** [s.indexOf(p)]: the least index at which [p] occurs, or -1. *)
Fixpoint indexOfFrom (i : Z) (s p : jsstring) : Z :=
  if startsWith s p then i
  else match s with
       | [] => (-1)%Z
       | _ :: s' => indexOfFrom (i + 1) s' p
       end.

Definition indexOf (s p : jsstring) : Z := indexOfFrom 0 s p.

Definition includes (s p : jsstring) : bool := (0 <=? indexOf s p)%Z.

(** [s.split(sep)] for a separator of one code unit. *)
Fixpoint split (sep : char) (s : jsstring) : list jsstring :=
  match s with
  | [] => [[]]
  | c :: s' =>
      if N.eqb c sep then [] :: split sep s'
      else match split sep s' with
           | l :: ls => (c :: l) :: ls
           | [] => [[c]]
           end
  end.

(** [a.join(sep)]. *)
Fixpoint join (sep : jsstring) (a : list jsstring) : jsstring :=
  match a with
  | [] => []
  | [l] => l
  | l :: a' => l ++ sep ++ join sep a'
  end.

(** Relative indices of [slice]: a negative index counts from the end, and
    every index is clamped to the length. *)
Definition clampIndex (len : nat) (k : Z) : nat :=
  if (k <? 0)%Z then Z.to_nat (Z.max (Z.of_nat len + k) 0)
  else Nat.min (Z.to_nat k) len.

(** [x.slice(start, end)] of an array or a string; [None] for an omitted
    [end]. *)
Definition slice {A : Type} (l : list A) (start : Z) (stop : option Z)
  : list A :=
  let from := clampIndex (length l) start in
  let to := match stop with
            | Some e => clampIndex (length l) e
            | None => length l
            end in
  firstn (to - from) (skipn from l).

(** [s.replace(/\\/g, "/")]. *)
Definition replaceBackslashes (s : jsstring) : jsstring :=
  map (fun c => if N.eqb c BACKSLASH then SLASH else c) s.

(** [s.replace(/^\.\//, "")]. *)
Definition stripDotSlash (s : jsstring) : jsstring :=
  match stripPrefix [DOT; SLASH] s with
  | Some rest => rest
  | None => s
  end.

(** Decimal digits of a non-negative integer, as a template literal prints
    a loop counter. *)
Fixpoint digits (u : Decimal.uint) : jsstring :=
  match u with
  | Nil => []
  | D0 u' => 48%N :: digits u'
  | D1 u' => 49%N :: digits u'
  | D2 u' => 50%N :: digits u'
  | D3 u' => 51%N :: digits u'
  | D4 u' => 52%N :: digits u'
  | D5 u' => 53%N :: digits u'
  | D6 u' => 54%N :: digits u'
  | D7 u' => 55%N :: digits u'
  | D8 u' => 56%N :: digits u'
  | D9 u' => 57%N :: digits u'
  end.

Definition isDigit (c : char) : bool := (N.leb 48 c && N.leb c 57)%bool.

Definition numberToString (n : nat) : jsstring := digits (Nat.to_uint n).

End JS.

Import JS.

(** ** Exceptions and the file system

    [fs.existsSync] answers a boolean and never throws; [fs.readFileSync]
    returns the text of the file or throws.  A thrown value is an [Error]
    with its message, or any other value with its [String(...)] form. *)

Inductive thrown :=
| ErrorObject (message : jsstring)
| OtherValue (asString : jsstring).

Inductive completion (A : Type) :=
| Normal (a : A)
| Throw (e : thrown).
Arguments Normal {A} a.
Arguments Throw {A} e.

Definition bind {A B : Type} (c : completion A) (k : A -> completion B)
  : completion B :=
  match c with
  | Normal a => k a
  | Throw e => Throw e
  end.

(** [try { body } catch (error) { handler }]. *)
Definition tryCatch {A : Type} (body : completion A)
  (handler : thrown -> completion A) : completion A :=
  match body with
  | Normal a => Normal a
  | Throw e => handler e
  end.

(** [error instanceof Error ? error.message : String(error)]. *)
Definition errorText (error : thrown) : jsstring :=
  match error with
  | ErrorObject message => message
  | OtherValue asString => asString
  end.

Record FileSystem := {
  existsSync : jsstring -> bool;
  readFileSync : jsstring -> completion jsstring
}.

(** The [content] array of a tool response: the [text] of each item, all of
    type ["text"]. *)
Definition response := list jsstring.

(** ** The tokenizer of [searchCodebase] *)

Record FileBlock := {
  path : jsstring;
  content : list jsstring
}.

(** [(.+?)] followed by the literal [tail] and [$]: the lazy quantifier
    takes one character that is not a line terminator at a time, and tries
    the rest of the pattern after each. *)
Fixpoint lazyDotPlusThen (tail s : jsstring) : option jsstring :=
  match s with
  | [] => None
  | c :: s' =>
      if isLineTerminator c then None
      else if eqb s' tail then Some [c]
      else option_map (cons c) (lazyDotPlusThen tail s')
  end.

(** [(.+)$]: the greedy quantifier takes every character up to the first
    line terminator, and [$] (no [m] flag) holds at the end of the string
    only. *)
Definition greedyDotPlusToEnd (s : jsstring) : option jsstring :=
  match s with
  | [] => None
  | _ :: _ =>
      if forallb (fun c => negb (isLineTerminator c)) s then Some s else None
  end.

Definition xmlOpen : jsstring := lit "<file path=" ++ [DQUOTE].
Definition xmlOpenEnd : jsstring := [DQUOTE; GT].
Definition hashOpen : jsstring := lit "# File: ".
Definition xmlClose : jsstring := lit "</file>".

(** [line.match(/^<file path="(.+?)">$/)]: the first group, if it matches. *)
Definition xmlMatch (line : jsstring) : option jsstring :=
  match stripPrefix xmlOpen line with
  | Some rest => lazyDotPlusThen xmlOpenEnd rest
  | None => None
  end.

(** [line.match(/^# File: (.+)$/)]: the first group, if it matches. *)
Definition hashMatch (line : jsstring) : option jsstring :=
  match stripPrefix hashOpen line with
  | Some rest => greedyDotPlusToEnd rest
  | None => None
  end.

(** [line.match(/^<\/file>$/)]. *)
Definition closeMatch (line : jsstring) : bool := eqb line xmlClose.

(** The two variables of the loop: [currentFile] and [fileBlocks]. *)
Record TokState := {
  currentFile : option FileBlock;
  fileBlocks : list FileBlock
}.

(** [if (currentFile) fileBlocks.push(currentFile)]. *)
Definition pushCurrent (st : TokState) : list FileBlock :=
  match currentFile st with
  | Some f => fileBlocks st ++ [f]
  | None => fileBlocks st
  end.

(** One iteration of the loop over [lines]. *)
Definition tokStep (st : TokState) (line : jsstring) : TokState :=
  match xmlMatch line with
  | Some p =>
      {| currentFile := Some {| path := trim p; content := [] |};
         fileBlocks := pushCurrent st |}
  | None =>
      match hashMatch line with
      | Some p =>
          {| currentFile := Some {| path := trim p; content := [] |};
             fileBlocks := pushCurrent st |}
      | None =>
          if closeMatch line then
            {| currentFile := None; fileBlocks := pushCurrent st |}
          else
            match currentFile st with
            | Some f =>
                {| currentFile :=
                     Some {| path := path f; content := content f ++ [line] |};
                   fileBlocks := fileBlocks st |}
            | None => st
            end
      end
  end.

Definition tokInit : TokState := {| currentFile := None; fileBlocks := [] |}.

Definition tokLines (lines : list jsstring) (st : TokState) : TokState :=
  fold_left tokStep lines st.

(** Lines 428 to 459: from the text of the dump to [fileBlocks]. *)
Definition parse (raw : jsstring) : list FileBlock :=
  pushCurrent (tokLines (split LF raw) tokInit).

(** ** Path normalisation and the snippet *)

Definition normalizePath (p : jsstring) : jsstring :=
  trim (replaceBackslashes (stripDotSlash p)).

(** The loop of lines 491 to 493, [snippet] being the text built so far. *)
Fixpoint snippetLoop (i : nat) (snippetLines : list jsstring)
  (snippet : jsstring) : jsstring :=
  match snippetLines with
  | [] => snippet
  | l :: rest =>
      snippetLoop (S i) rest
        (snippet ++ SPACE :: numberToString (i + 1) ++ lit ": " ++ l ++ [LF])
  end.

(** Lines 488 to 493: [maxLines ?? 40], the slice and the loop.  [maxLines]
    ranges over the integers; [slice] would cut a fraction off. *)
Definition snippetOf (found : FileBlock) (maxLines : option Z) : jsstring :=
  let maxL := match maxLines with Some m => m | None => 40%Z end in
  let snippetLines := slice (content found) 0 (Some maxL) in
  snippetLoop 0 snippetLines [].

(** The body of the answer, [snippet.trim()]. *)
Definition extract (found : FileBlock) (maxLines : option Z) : jsstring :=
  trim (snippetOf found maxLines).

(** *** [maxLines] as a number

    The schema of the handler is [z.number()]: [maxLines] may be a
    fraction, an infinity or [NaN].  A finite number is taken among the
    rationals, which hold every double.  [slice] turns its bounds into
    integers by [ToIntegerOrInfinity]: [NaN] is 0 and a fraction is cut
    towards zero. *)

Inductive number :=
| Finite (q : QArith_base.Q)
| PlusInfinity
| MinusInfinity
| NaN.

Inductive integerOrInfinity :=
| Int (z : Z)
| PlusInf
| MinusInf.

Definition toIntegerOrInfinity (x : number) : integerOrInfinity :=
  match x with
  | Finite q =>
      Int (Z.quot (QArith_base.Qnum q) (Z.pos (QArith_base.Qden q)))
  | PlusInfinity => PlusInf
  | MinusInfinity => MinusInf
  | NaN => Int 0
  end.

(** [x.slice(start, end)] for a number [end]: the end is the length for
    [+Infinity] and 0 for [-Infinity]. *)
Definition sliceNumber {A : Type} (l : list A) (start : Z) (stop : number)
  : list A :=
  match toIntegerOrInfinity stop with
  | Int e => slice l start (Some e)
  | PlusInf => slice l start None
  | MinusInf => slice l start (Some 0%Z)
  end.

(** Lines 488 to 493 again, for any number. *)
Definition snippetOfNumber (found : FileBlock) (maxLines : option number)
  : jsstring :=
  let maxL :=
    match maxLines with
    | Some m => m
    | None => Finite (QArith_base.inject_Z 40)
    end in
  let snippetLines := sliceNumber (content found) 0 maxL in
  snippetLoop 0 snippetLines [].

Definition extractNumber (found : FileBlock) (maxLines : option number)
  : jsstring :=
  trim (snippetOfNumber found maxLines).

(** ** The operations

    Two functions of the host are taken as they come:
    [String.prototype.toLowerCase], whose table is Unicode's, and
    [path.join] of Node. *)

Section Operations.

Variable toLowerCase : jsstring -> jsstring.
Variable pathJoin : jsstring -> jsstring -> jsstring.

(** *** [getCodebaseIgnoreGlobs] *)

Definition isPattern (line : jsstring) : bool :=
  negb (eqb line []) && negb (startsWith line [HASH]).

Definition getCodebaseIgnoreGlobs (fs : FileSystem) (workingDir : jsstring)
  : completion (option jsstring) :=
  let ignorePath := pathJoin workingDir (lit ".codebaseignore") in
  if negb (existsSync fs ignorePath) then Normal None
  else
    bind (readFileSync fs ignorePath) (fun text =>
      let lines := filter isPattern (map trim (split LF text)) in
      if Nat.eqb (length lines) 0 then Normal None
      else Normal (Some (join [COMMA] lines))).

(** *** The report of [getCodebase]: banners and the summary block *)

Definition keepLine (line : jsstring) : bool :=
  negb (includes line (lit "Repomix is now available"))
  && negb (includes line (lit "https://repomix.com"))
  && negb (includes (toLowerCase line) (lit "repomix"))
  && negb (includes line (lit "Pack your codebase into AI-friendly formats")).

(** Lines 112 to 122: [filtered]. *)
Definition filterBanners (output : jsstring) : jsstring :=
  trim (join [LF] (filter keepLine (split LF output))).

Definition packSummary : jsstring := lit "Pack Summary:".
Definition totalFiles : jsstring := lit "Total Files:".

(** [filtered.match(/(Pack Summary:|Total Files:)/)]: the text matched at
    the leftmost position where one of the alternatives matches, the
    alternatives being tried in their order at each position. *)
Fixpoint summaryMatch (s : jsstring) : option jsstring :=
  if startsWith s packSummary then Some packSummary
  else if startsWith s totalFiles then Some totalFiles
  else match s with
       | [] => None
       | _ :: s' => summaryMatch s'
       end.

(** Lines 142 to 151: [summaryBlock]. *)
Definition summaryBlock (filtered : jsstring) : jsstring :=
  match summaryMatch filtered with
  | Some m =>
      let idx := indexOf filtered m in
      trim (slice filtered idx None)
  | None =>
      let lines := split LF (trim filtered) in
      join [LF] (slice lines (-20) None)
  end.

(** *** [searchCodebase] *)

(** Lines 465 to 475: the exact pass, then the pass on lower-cased paths. *)
Definition findBlock (blocks : list FileBlock) (file : jsstring)
  : option FileBlock :=
  let requested := normalizePath file in
  match find (fun f => eqb (normalizePath (path f)) requested) blocks with
  | Some found => Some found
  | None =>
      find (fun f => eqb (toLowerCase (normalizePath (path f)))
                         (toLowerCase requested)) blocks
  end.

Definition defaultCodebase : jsstring := lit "project.codebase".

(** The handler, lines 404 to 513.  [file], [codebase] and [maxLines] are
    [None] when the caller leaves them out. *)
Definition searchCodebase (fs : FileSystem) (file codebase : option jsstring)
  (maxLines : option Z) : completion response :=
  tryCatch
    (let codebaseFile :=
       match codebase with
       | Some (c :: cs) => c :: cs
       | _ => defaultCodebase
       end in
     if negb (existsSync fs codebaseFile) then
       Normal [lit "Codebase file not found: " ++ codebaseFile]
     else
       match file with
       | Some (c :: cs) =>
           let file := c :: cs in
           bind (readFileSync fs codebaseFile) (fun raw =>
             match findBlock (parse raw) file with
             | None =>
                 Normal [lit "File " ++ DQUOTE :: file ++ DQUOTE
                           :: lit " not found in codebase."]
             | Some found =>
                 Normal [xmlOpen ++ path found ++ xmlOpenEnd ++ LF
                           :: extract found maxLines ++ LF :: xmlClose]
             end)
       | _ => Normal [lit "Parameter 'file' is required."]
       end)
    (fun error =>
       Normal [lit "Error while extracting file: " ++ errorText error]).

End Operations.

(** [toLowerCase] on strings of ASCII characters, for the examples. *)
Definition asciiLower (s : jsstring) : jsstring :=
  map (fun c => if (N.leb 65 c && N.leb c 90)%bool then (c + 32)%N else c) s.

(** ** The operations that run the packaging tool

    [getCodebase], [getRemoteCodebase] and [saveCodebase] build a command
    line, run it with [execSync] and answer with a text.  The tool is
    outside the program: [execSync] is a function of the world it runs in,
    which returns what the tool prints and the world it leaves, or throws.
    What [console.error] prints is left out. *)

Inductive Format := Xml | Markdown | Plain.

Definition formatText (f : Format) : jsstring :=
  match f with
  | Xml => lit "xml"
  | Markdown => lit "markdown"
  | Plain => lit "plain"
  end.

(** The parameters the three operations share; [None] is [undefined]. *)
Record Options := {
  cwd : option jsstring;
  format : option Format;
  includeFileSummary : option bool;
  includeDirectoryStructure : option bool;
  removeComments : option bool;
  removeEmptyLines : option bool;
  showLineNumbers : option bool;
  includePatterns : option jsstring;
  ignorePatterns : option jsstring
}.

(** The files, and [fs.statSync(p).size]. *)
Record World := {
  files : FileSystem;
  statSize : jsstring -> completion N
}.

(** [if (s)] for a string that may be left out. *)
Definition truthy (s : option jsstring) : bool :=
  match s with
  | Some (_ :: _) => true
  | _ => false
  end.

Definition textOf (s : option jsstring) : jsstring :=
  match s with
  | Some t => t
  | None => []
  end.

(** [b === true] and [b === false]. *)
Definition isTrue (b : option bool) : bool :=
  match b with Some true => true | _ => false end.

Definition isFalse (b : option bool) : bool :=
  match b with Some false => true | _ => false end.

(** Lines 91 to 98, and again 335 to 342: [combinedIgnore]. *)
Definition combineIgnore (ignorePatterns ignoreFromFile : option jsstring)
  : option jsstring :=
  if truthy ignorePatterns && truthy ignoreFromFile then
    Some (textOf ignorePatterns ++ COMMA :: textOf ignoreFromFile)
  else if truthy ignorePatterns then ignorePatterns
  else if truthy ignoreFromFile then ignoreFromFile
  else None.

(** [command += ` --ignore "${combinedIgnore}"`], if there is one. *)
Definition addIgnore (command : jsstring) (combinedIgnore : option jsstring)
  : jsstring :=
  if truthy combinedIgnore then
    command ++ lit " --ignore " ++ DQUOTE :: textOf combinedIgnore ++ [DQUOTE]
  else command.

(** [command += ` --include "${includePatterns}"`], if there are some. *)
Definition addInclude (command : jsstring) (patterns : option jsstring)
  : jsstring :=
  if truthy patterns then
    command ++ lit " --include " ++ DQUOTE :: textOf patterns ++ [DQUOTE]
  else command.

(** [if (b === true) command += yes; else if (b === false) command += no]. *)
Definition addEither (command : jsstring) (b : option bool)
  (yes no : jsstring) : jsstring :=
  match b with
  | Some true => command ++ yes
  | Some false => command ++ no
  | None => command
  end.

Definition addStyle (command : jsstring) (f : option Format) : jsstring :=
  match f with
  | Some f => command ++ lit " --style " ++ formatText f
  | None => command
  end.

(** Lines 63 to 101: the command of [getCodebase]. *)
Definition getCodebaseCommand (o : Options) (ignoreFromFile : option jsstring)
  : jsstring :=
  let command := lit "npx repomix --output project.codebase" in
  let command := addStyle command (format o) in
  let command :=
    if isTrue (removeComments o) then command ++ lit " --remove-comments"
    else command in
  let command :=
    if isTrue (removeEmptyLines o) then command ++ lit " --remove-empty-lines"
    else command in
  let command :=
    if isTrue (showLineNumbers o) then
      command ++ lit " --output-show-line-numbers"
    else command in
  let command :=
    if isFalse (includeFileSummary o) then command ++ lit " --no-file-summary"
    else command in
  let command :=
    if isFalse (includeDirectoryStructure o) then
      command ++ lit " --no-directory-structure"
    else command in
  let command := addInclude command (includePatterns o) in
  addIgnore command (combineIgnore (ignorePatterns o) ignoreFromFile).

(** The options that [getRemoteCodebase] and [saveCodebase] add in the
    same words, lines 203 to 239 and 295 to 331. *)
Definition addOptions (command : jsstring) (o : Options) : jsstring :=
  let command := addStyle command (format o) in
  let command :=
    addEither command (includeFileSummary o)
      (lit " --include-file-summary") (lit " --no-include-file-summary") in
  let command :=
    addEither command (includeDirectoryStructure o)
      (lit " --include-directory-structure")
      (lit " --no-include-directory-structure") in
  let command :=
    addEither command (removeComments o)
      (lit " --remove-comments") (lit " --no-remove-comments") in
  let command :=
    addEither command (removeEmptyLines o)
      (lit " --remove-empty-lines") (lit " --no-remove-empty-lines") in
  let command :=
    addEither command (showLineNumbers o)
      (lit " --show-line-numbers") (lit " --no-show-line-numbers") in
  addInclude command (includePatterns o).

(** Lines 200 to 239: the command of [getRemoteCodebase]. *)
Definition getRemoteCodebaseCommand (repo : jsstring) (o : Options)
  : jsstring :=
  addOptions (lit "npx repomix --remote " ++ repo
                ++ lit " --output remote.codebase") o.

(** Lines 292 to 345: the command of [saveCodebase]. *)
Definition saveCodebaseCommand (outputPath : jsstring) (o : Options)
  (ignoreFromFile : option jsstring) : jsstring :=
  addIgnore
    (addOptions (lit "npx repomix --output " ++ DQUOTE :: outputPath
                   ++ [DQUOTE]) o)
    (combineIgnore (ignorePatterns o) ignoreFromFile).

(** *** The directory structure of the report *)

(** The letters of an ASCII pattern under the [i] flag: a character
    matches a letter when their ASCII upper cases are equal; characters
    beyond ASCII never canonicalise to an ASCII one. *)
Definition asciiUpper (c : char) : char :=
  if (N.leb 97 c && N.leb c 122)%bool then (c - 32)%N else c.

Fixpoint startsWithCI (p s : jsstring) : bool :=
  match p, s with
  | [], _ => true
  | a :: p', c :: s' =>
      N.eqb (asciiUpper a) (asciiUpper c) && startsWithCI p' s'
  | _ :: _, [] => false
  end.

Definition dirHeading : jsstring := lit "Directory Structure".

(** [filtered.match(/Directory Structure:?/i)]: the text matched at the
    leftmost position, with the colon when one follows. *)
Fixpoint dirMatch (s : jsstring) : option jsstring :=
  if startsWithCI dirHeading s then
    match skipn (length dirHeading) s with
    | c :: _ =>
        if N.eqb c COLON then Some (firstn (length dirHeading + 1) s)
        else Some (firstn (length dirHeading) s)
    | [] => Some (firstn (length dirHeading) s)
    end
  else
    match s with
    | [] => None
    | _ :: s' => dirMatch s'
    end.

(** [s.indexOf(p, from)]. *)
Definition indexOfAt (s p : jsstring) (from : Z) : Z :=
  let k := Nat.min (Z.to_nat from) (length s) in
  indexOfFrom (Z.of_nat k) (skipn k s) p.

(** Lines 125 to 139: [directoryStructure]. *)
Definition directoryBlock (filtered : jsstring) : jsstring :=
  match dirMatch filtered with
  | None => []
  | Some dirStart =>
      let idx := indexOf filtered dirStart in
      let endIdx := Z.of_nat (length filtered) in
      let summaryIdx := indexOfAt filtered (lit "Pack Summary") (idx + 1) in
      let totalFilesIdx := indexOfAt filtered (lit "Total Files") (idx + 1) in
      let endIdx :=
        if negb (Z.eqb summaryIdx (-1)) && Z.ltb idx summaryIdx
        then Z.min endIdx summaryIdx else endIdx in
      let endIdx :=
        if negb (Z.eqb totalFilesIdx (-1)) && Z.ltb idx totalFilesIdx
        then Z.min endIdx totalFilesIdx else endIdx in
      let start := (idx + Z.of_nat (length dirStart))%Z in
      let directoryStructure := trim (slice filtered start None) in
      if negb (Z.eqb endIdx (Z.of_nat (length filtered))) then
        trim (slice filtered start (Some endIdx))
      else directoryStructure
  end.

Section Tool.

Variable toLowerCase : jsstring -> jsstring.
Variable pathJoin : jsstring -> jsstring -> jsstring.
Variable pathIsAbsolute : jsstring -> bool.
(** [process.cwd()]. *)
Variable processCwd : jsstring.
(** [(size / (1024 * 1024)).toFixed(2)]. *)
Variable megabytes : N -> jsstring.
(** [execSync(command, { cwd })], with the world before and after. *)
Variable execSync :
  World -> jsstring -> option jsstring -> completion (jsstring * World).

(** [cwd || process.cwd()]. *)
Definition workingDirOf (o : Options) : jsstring :=
  if truthy (cwd o) then textOf (cwd o) else processCwd.

(** Lines 153 to 168: the content of the answer. *)
Definition reportContent (filtered : jsstring) : response :=
  let directoryStructure := directoryBlock filtered in
  let summaryBlock := summaryBlock filtered in
  match directoryStructure with
  | _ :: _ =>
      [lit "<directory_structure>" ++ LF :: directoryStructure
         ++ LF :: lit "</directory_structure>"; summaryBlock]
  | [] => [summaryBlock]
  end.

(** The handler of [getCodebase], lines 58 to 180. *)
Definition getCodebase (w : World) (o : Options) : completion response :=
  tryCatch
    (let workingDir := workingDirOf o in
     bind (getCodebaseIgnoreGlobs pathJoin (files w) workingDir)
       (fun ignoreFromFile =>
          let command := getCodebaseCommand o ignoreFromFile in
          bind (execSync w command (Some workingDir)) (fun out =>
            Normal (reportContent (filterBanners toLowerCase (fst out))))))
    (fun error =>
       Normal [lit "Error retrieving codebase: " ++ errorText error]).

(** The handler of [getRemoteCodebase], lines 198 to 267. *)
Definition getRemoteCodebase (w : World) (repo : jsstring) (o : Options)
  : completion response :=
  tryCatch
    (bind (execSync w (getRemoteCodebaseCommand repo o) None) (fun out =>
       Normal [fst out]))
    (fun error =>
       Normal [lit "Error retrieving remote codebase: " ++ errorText error]).

(** [path.isAbsolute(outputFile) ? outputFile : path.join(...)]. *)
Definition outputPathOf (o : Options) (outputFile : jsstring) : jsstring :=
  if pathIsAbsolute outputFile then outputFile
  else pathJoin (workingDirOf o) outputFile.

(** The handler of [saveCodebase], lines 286 to 389. *)
Definition saveCodebase (w : World) (outputFile : jsstring) (o : Options)
  : completion response :=
  tryCatch
    (let workingDir := workingDirOf o in
     let outputPath := outputPathOf o outputFile in
     bind (getCodebaseIgnoreGlobs pathJoin (files w) workingDir)
       (fun ignoreFromFile =>
          let command := saveCodebaseCommand outputPath o ignoreFromFile in
          bind (execSync w command (Some workingDir)) (fun out =>
            let w' := snd out in
            if existsSync (files w') outputPath then
              bind (statSize w' outputPath) (fun size =>
                Normal [lit "Codebase saved successfully to " ++ outputPath
                          ++ lit " (" ++ megabytes size ++ lit " MB)"])
            else
              Normal [lit "Failed to save codebase to " ++ outputPath
                        ++ lit ". File was not created."])))
    (fun error => Normal [lit "Error saving codebase: " ++ errorText error]).

End Tool.

(** ** Vocabulary of the specification *)

Definition noLineTerminator (p : jsstring) : bool :=
  forallb (fun c => negb (isLineTerminator c)) p.

(** What a path between the delimiters may be: one character at least, and
    no line terminator. *)
Definition validPath (p : jsstring) : Prop :=
  p <> [] /\ noLineTerminator p = true.

(** The opening line of each syntax, for the path [p]. *)
Definition xmlLine (p : jsstring) : jsstring := xmlOpen ++ p ++ xmlOpenEnd.
Definition hashLine (p : jsstring) : jsstring := hashOpen ++ p.

(** The path a line opens a record with, the XML-like syntax being tried
    first. *)
Definition opening (line : jsstring) : option jsstring :=
  match xmlMatch line with
  | Some p => Some p
  | None => hashMatch line
  end.

Definition isDelimiter (line : jsstring) : bool :=
  match opening line with
  | Some _ => true
  | None => closeMatch line
  end.

(** Lines that are content wherever they stand. *)
Definition plainLines (ls : list jsstring) : Prop :=
  Forall (fun l => isDelimiter l = false) ls.

(** The record a delimiter line leaves open: a fresh one for an opening
    line, none for the closing tag. *)
Definition openedBy (line : jsstring) : option FileBlock :=
  option_map (fun p => {| path := trim p; content := [] |}) (opening line).

(** The paths the opening lines of a dump announce, in their order. *)
Definition announcedPaths (lines : list jsstring) : list jsstring :=
  flat_map (fun l => match opening l with
                     | Some p => [trim p]
                     | None => []
                     end) lines.

(** [r] is a block of [lines]: an opening line that announces its path,
    then its content, which holds no delimiter and runs up to the next
    delimiter or to the end of the dump. *)
Definition blockOf (lines : list jsstring) (r : FileBlock) : Prop :=
  exists pre o p post,
    lines = pre ++ o :: content r ++ post /\
    opening o = Some p /\ path r = trim p /\
    plainLines (content r) /\
    match post with
    | [] => True
    | d :: _ => isDelimiter d = true
    end.

(** A record that is sealed, or still open, after the lines [done]. *)
Definition sealedIn (done : list jsstring) (r : FileBlock) : Prop :=
  exists pre o p d post,
    done = pre ++ o :: content r ++ d :: post /\
    opening o = Some p /\ path r = trim p /\
    plainLines (content r) /\ isDelimiter d = true.

Definition openIn (done : list jsstring) (f : FileBlock) : Prop :=
  exists pre o p,
    done = pre ++ o :: content f /\
    opening o = Some p /\ path f = trim p /\ plainLines (content f).

Definition tokInvariant (done : list jsstring) (st : TokState) : Prop :=
  Forall (sealedIn done) (fileBlocks st) /\
  (forall f, currentFile st = Some f -> openIn done f).

(** [" {index}: {line text}\n"], the rendering of one line. *)
Definition renderLine (index : nat) (l : jsstring) : jsstring :=
  SPACE :: numberToString index ++ lit ": " ++ l ++ [LF].

(** The lines of [ls] with the indices [start], [start + 1], ... *)
Definition indexedFrom (start : nat) (ls : list jsstring)
  : list (nat * jsstring) :=
  combine (seq start (length ls)) ls.

(** The concatenation of the rendered lines, numbered from 1. *)
Definition renderLines (ls : list jsstring) : jsstring :=
  concat (map (fun il => renderLine (fst il) (snd il)) (indexedFrom 1 ls)).

(** The snippet extractor as the specification words it: the first
    [min(maxLines, length)] lines rendered, and white space trimmed at the
    end only. *)
Definition extractAsSpecified (record : FileBlock) (maxLines : Z)
  : jsstring :=
  trimEnd
    (renderLines
       (firstn (Nat.min (Z.to_nat maxLines) (length (content record)))
          (content record))).

(** ["{index}: {line text}"]. *)
Definition numberedLine (index : nat) (l : jsstring) : jsstring :=
  numberToString index ++ lit ": " ++ l.

(** The lines one reads in a body that numbers every line of [ls]: the
    first starts with its index, the others with a space. *)
Definition bodyLines (ls : list jsstring) : list jsstring :=
  match ls with
  | [] => [[]]
  | l :: rest =>
      numberedLine 1 l
        :: map (fun il => SPACE :: numberedLine (fst il) (snd il))
             (indexedFrom 2 rest)
  end.

Fixpoint mapLast {A : Type} (f : A -> A) (l : list A) : list A :=
  match l with
  | [] => []
  | [x] => [f x]
  | x :: r => x :: mapLast f r
  end.

(** [body] reproduces the lines [ls]: it has one line for each, in order,
    that ends with the text of the line, whatever stands before it; an
    empty body has no line. *)
Definition linesOf (body : jsstring) : list jsstring :=
  match body with
  | [] => []
  | _ :: _ => split LF body
  end.

(** Each line of [ls] after the prefix of the same rank. *)
Definition prefixed (prefixes ls : list jsstring) : list jsstring :=
  map (fun pl => fst pl ++ snd pl) (combine prefixes ls).

Definition reproduces (body : jsstring) (ls : list jsstring) : Prop :=
  exists prefixes,
    length prefixes = length ls /\ linesOf body = prefixed prefixes ls.

(** [x] is the first element of [l], in the order of [l], with [P]. *)
Definition firstWith {A : Type} (P : A -> Prop) (l : list A) (x : A)
  : Prop :=
  exists before after,
    l = before ++ x :: after /\ P x /\ (forall y, In y before -> ~ P y).

(** The two comparisons of the lookup. *)
Definition exactMatch (file : jsstring) (f : FileBlock) : Prop :=
  normalizePath (path f) = normalizePath file.

Definition looseMatch (toLowerCase : jsstring -> jsstring) (file : jsstring)
  (f : FileBlock) : Prop :=
  toLowerCase (normalizePath (path f)) = toLowerCase (normalizePath file).

(** [pat] occurs in [s] at the index [i]. *)
Definition occursAt (pat s : jsstring) (i : nat) : Prop :=
  exists before after, s = before ++ pat ++ after /\ length before = i.

(** One of the two markers of the summary stands at the index [i]. *)
Definition markerAt (s : jsstring) (i : nat) : Prop :=
  occursAt (lit "Pack Summary:") s i \/ occursAt (lit "Total Files:") s i.

(** The last [n] elements of [l], all of [l] if it has fewer. *)
Definition lastLines {A : Type} (n : nat) (l : list A) : list A :=
  skipn (length l - n) l.

(** A line of the ignore file that is blank, or a comment: its first
    character that is not white space is [#]. *)
Definition blankOrComment (line : jsstring) : Prop :=
  forallb isWhiteSpace line = true \/
  exists ws rest,
    line = ws ++ HASH :: rest /\ forallb isWhiteSpace ws = true.

(** The file [searchCodebase] reads: [codebase || "project.codebase"]. *)
Definition codebaseFileOf (codebase : option jsstring) : jsstring :=
  match codebase with
  | Some (c :: cs) => c :: cs
  | _ => lit "project.codebase"
  end.

(** [!file]: the parameter is left out, or empty. *)
Definition fileMissing (file : option jsstring) : Prop :=
  file = None \/ file = Some [].

Definition isOpening (line : jsstring) : bool :=
  match opening line with
  | Some _ => true
  | None => false
  end.

(** The text [searchCodebase] answers for the record [found]. *)
Definition excerptText (found : FileBlock) (maxLines : option Z) : jsstring :=
  xmlOpen ++ path found ++ xmlOpenEnd ++ LF
    :: extract found maxLines ++ LF :: xmlClose.

(** The patterns of the ignore file of [dir], none when there is no file
    or it cannot be read. *)
Definition filePatterns (pathJoin : jsstring -> jsstring -> jsstring)
  (fs : FileSystem) (dir : jsstring) : list jsstring :=
  let ignorePath := pathJoin dir (lit ".codebaseignore") in
  if existsSync fs ignorePath then
    match readFileSync fs ignorePath with
    | Normal text => filter isPattern (map trim (split LF text))
    | Throw _ => []
    end
  else [].

(** The patterns of the caller, as one entry of the list. *)
Definition callerPatterns (ignorePatterns : option jsstring)
  : list jsstring :=
  if truthy ignorePatterns then [textOf ignorePatterns] else [].

(** The banner texts that [includes] looks for as they are written. *)
Definition bannerTexts : list jsstring :=
  [ lit "Repomix is now available";
    lit "https://repomix.com";
    lit "Pack your codebase into AI-friendly formats" ].

(** The markers that end the directory structure. *)
Definition blockMarkers : list jsstring :=
  [ lit "Pack Summary"; lit "Total Files" ].

(** [p] occurs somewhere in [s]. *)
Definition occurs (p s : jsstring) : Prop :=
  exists before after, s = before ++ p ++ after.

(** A number below zero. *)
Definition isNegative (x : number) : Prop :=
  match x with
  | Finite q => QArith_base.Qlt q (QArith_base.inject_Z 0)
  | MinusInfinity => True
  | PlusInfinity | NaN => False
  end.

(** ** Sample dumps *)

(** A preamble, a file in the XML-like syntax, a blank line, a file in the
    heading syntax; the text ends with a line break. *)
Definition mixLines : list jsstring :=
  [ lit "This file is a merged representation of the codebase.";
    xmlLine (lit "src/a.ts");
    lit "const a = 1;";
    lit "# File list";
    xmlClose;
    lit "";
    hashLine (lit "docs/B.md ");
    lit "hello";
    lit "" ].

Definition mixDump : jsstring := join [LF] mixLines.

(** One file whose only line ends with a space. *)
Definition spaceDump : jsstring :=
  join [LF] [ xmlLine (lit "a.ts"); lit "foo "; xmlClose ].

(** A report with a banner and a summary, and one without markers. *)
Definition reportWithSummary : jsstring :=
  join [LF]
    [ lit "Repomix is now available in your browser";
      lit "Directory Structure:";
      lit "src/";
      lit "Total Files: 3";
      lit "Pack Summary: done ";
      lit "" ].

Definition reportWithoutMarkers : jsstring :=
  join [LF] [ lit "one"; lit "REPOMIX"; lit "two"; lit "" ].

(** A file system with the dump [mixDump] saved as [project.codebase], an
    ignore file of comments in [proj], and a codebase that cannot be
    read. *)
Definition sampleJoin (dir name : jsstring) : jsstring :=
  dir ++ SLASH :: name.

Definition sampleFs : FileSystem :=
  {| existsSync := fun p =>
       eqb p (lit "project.codebase") || eqb p (lit "locked.codebase")
       || eqb p (lit "proj/.codebaseignore");
     readFileSync := fun p =>
       if eqb p (lit "project.codebase") then Normal mixDump
       else if eqb p (lit "proj/.codebaseignore") then
         Normal (join [LF] [lit "# build output"; lit "   "; lit " #x"; lit ""])
       else Throw (ErrorObject (lit "EACCES: permission denied")) |}.

(** A file system whose directory [repo] has an ignore file with three
    patterns. *)
Definition ignoreFs : FileSystem :=
  {| existsSync := fun p => eqb p (lit "repo/.codebaseignore");
     readFileSync := fun _ =>
       Normal (join [LF] [ lit "node_modules"; lit "# logs"; lit " dist ";
                           lit ""; lit "*.log" ]) |}.

(** A world for the operations that run the tool: the tool prints the
    report [reportWithSummary] and writes nothing, and fails on a remote
    repository. *)
Definition noOptions : Options :=
  {| cwd := None; format := None; includeFileSummary := None;
     includeDirectoryStructure := None; removeComments := None;
     removeEmptyLines := None; showLineNumbers := None;
     includePatterns := None; ignorePatterns := None |}.

Definition sampleWorld : World :=
  {| files := sampleFs; statSize := fun _ => Normal 2097152%N |}.

Definition sampleExec (w : World) (command : jsstring)
  (dir : option jsstring) : completion (jsstring * World) :=
  if startsWith command (lit "npx repomix --remote") then
    Throw (ErrorObject (lit "Command failed"))
  else Normal (reportWithSummary, w).

(** The options [o] with another [cwd] and other [ignorePatterns]. *)
Definition withCaller (o : Options) (dir patterns : option jsstring)
  : Options :=
  {| cwd := dir; format := format o;
     includeFileSummary := includeFileSummary o;
     includeDirectoryStructure := includeDirectoryStructure o;
     removeComments := removeComments o;
     removeEmptyLines := removeEmptyLines o;
     showLineNumbers := showLineNumbers o;
     includePatterns := includePatterns o;
     ignorePatterns := patterns |}.

(** The message of [saveCodebase] for a file written. *)
Definition savedText (outputPath size : jsstring) : jsstring :=
  lit "Codebase saved successfully to " ++ outputPath
    ++ lit " (" ++ size ++ lit " MB)".

(** * Properties *)

(** ** Strings *)

Lemma eqb_eq (s t : jsstring) : eqb s t = true <-> s = t.
Proof.
  revert t; induction s as [|c s IH]; intros [|d t]; simpl;
    try (split; [discriminate | congruence]); try tauto.
  rewrite andb_true_iff, N.eqb_eq, IH. split.
  - intros [-> ->]; reflexivity.
  - intros H; injection H; auto.
Qed.

Lemma eqb_refl (s : jsstring) : eqb s s = true.
Proof. apply eqb_eq; reflexivity. Qed.

Lemma eqb_neq (s t : jsstring) : eqb s t = false <-> s <> t.
Proof.
  rewrite <- eqb_eq. destruct (eqb s t); split; congruence.
Qed.

Lemma stripPrefix_app (p s : jsstring) : stripPrefix p (p ++ s) = Some s.
Proof.
  induction p as [|c p IH]; simpl; [reflexivity|].
  rewrite N.eqb_refl; exact IH.
Qed.

Lemma stripPrefix_Some (p s r : jsstring) :
  stripPrefix p s = Some r -> s = p ++ r.
Proof.
  revert s; induction p as [|c p IH]; intros s; simpl.
  - congruence.
  - destruct s as [|d s]; [discriminate|].
    destruct (N.eqb_spec c d) as [->|]; [|discriminate].
    intros H; rewrite (IH _ H); reflexivity.
Qed.

Lemma startsWith_iff (s p : jsstring) :
  startsWith s p = true <-> exists r, s = p ++ r.
Proof.
  unfold startsWith; split.
  - destruct (stripPrefix p s) eqn:E; [|discriminate].
    intros _; exists j; apply stripPrefix_Some; exact E.
  - intros [r ->]; rewrite stripPrefix_app; reflexivity.
Qed.

(** *** [trim] *)

Lemma dropWhile_app_false {A : Type} (p : A -> bool) (l : list A) (x : A)
  (r : list A) :
  p x = false -> forallb p l = true -> dropWhile p (l ++ x :: r) = x :: r.
Proof.
  intros Hx; induction l as [|y l IH]; simpl.
  - rewrite Hx; reflexivity.
  - intros H; apply andb_true_iff in H as [-> H]; auto.
Qed.

Lemma dropWhile_all {A : Type} (p : A -> bool) (l : list A) :
  forallb p l = true -> dropWhile p l = [].
Proof.
  induction l as [|y l IH]; simpl; [reflexivity|].
  intros H; apply andb_true_iff in H as [-> H]; auto.
Qed.

Lemma dropWhile_decompose {A : Type} (p : A -> bool) (l : list A) :
  exists ws, l = ws ++ dropWhile p l /\ forallb p ws = true.
Proof.
  induction l as [|y l [ws [E H]]]; simpl.
  - exists []; split; reflexivity.
  - destruct (p y) eqn:Hy.
    + exists (y :: ws); simpl; rewrite Hy, H, <- E; split; reflexivity.
    + exists []; split; reflexivity.
Qed.

Lemma dropWhile_head {A : Type} (p : A -> bool) (l : list A) (x : A)
  (r : list A) : dropWhile p l = x :: r -> p x = false.
Proof.
  induction l as [|y l IH]; simpl; [discriminate|].
  destruct (p y) eqn:Hy; [exact IH|].
  intros H; injection H as -> _; exact Hy.
Qed.

Lemma trimStart_cons (c : char) (s : jsstring) :
  isWhiteSpace c = false -> trimStart (c :: s) = c :: s.
Proof. intros H; unfold trimStart; simpl; rewrite H; reflexivity. Qed.

Lemma trimStart_space (c : char) (s : jsstring) :
  isWhiteSpace c = true -> trimStart (c :: s) = trimStart s.
Proof. intros H; unfold trimStart; simpl; rewrite H; reflexivity. Qed.

Lemma trimEnd_snoc (s : jsstring) (c : char) :
  isWhiteSpace c = false -> trimEnd (s ++ [c]) = s ++ [c].
Proof.
  intros H; unfold trimEnd. rewrite rev_app_distr; simpl.
  rewrite H; simpl. rewrite rev_involutive; reflexivity.
Qed.

Lemma trimEnd_snoc_space (s : jsstring) (c : char) :
  isWhiteSpace c = true -> trimEnd (s ++ [c]) = trimEnd s.
Proof.
  intros H; unfold trimEnd. rewrite rev_app_distr; simpl.
  rewrite H; reflexivity.
Qed.

Lemma trimEnd_app_spaces (s w : jsstring) :
  forallb isWhiteSpace w = true -> trimEnd (s ++ w) = trimEnd s.
Proof.
  induction w as [|c w IH] using rev_ind; intros H.
  - rewrite app_nil_r; reflexivity.
  - rewrite forallb_app in H; simpl in H.
    apply andb_true_iff in H as [Hw Hc]; rewrite andb_true_r in Hc.
    rewrite app_assoc, trimEnd_snoc_space by exact Hc. auto.
Qed.

(** [trimEnd] only removes a suffix of white space. *)
Lemma trimEnd_decompose (s : jsstring) :
  exists w, s = trimEnd s ++ w /\ forallb isWhiteSpace w = true.
Proof.
  unfold trimEnd.
  destruct (dropWhile_decompose isWhiteSpace (rev s)) as [ws [E H]].
  exists (rev ws); split.
  - rewrite <- rev_app_distr, <- E, rev_involutive; reflexivity.
  - rewrite forallb_forall in *; intros x Hx; apply H, in_rev; exact Hx.
Qed.

Lemma trimEnd_last (s u : jsstring) (c : char) :
  trimEnd s = u ++ [c] -> isWhiteSpace c = false.
Proof.
  unfold trimEnd; intros Et.
  apply (f_equal (@rev char)) in Et.
  rewrite rev_involutive, rev_app_distr in Et; simpl in Et.
  exact (dropWhile_head _ _ _ _ Et).
Qed.

Lemma trimEnd_app_keep (s t : jsstring) :
  trimEnd t <> [] -> trimEnd (s ++ t) = s ++ trimEnd t.
Proof.
  intros Hne.
  destruct (trimEnd_decompose t) as [w [E Hw]].
  rewrite E at 1. rewrite app_assoc, trimEnd_app_spaces by exact Hw.
  destruct (exists_last Hne) as [u [c Et]].
  rewrite Et, app_assoc; apply trimEnd_snoc.
  exact (trimEnd_last _ _ _ Et).
Qed.

Lemma trimEnd_idem (s : jsstring) : trimEnd (trimEnd s) = trimEnd s.
Proof.
  destruct (trimEnd s) as [|d v] eqn:Et; [reflexivity|].
  assert (Hne : d :: v <> []) by discriminate.
  destruct (exists_last Hne) as [u [c E]].
  rewrite E; apply trimEnd_snoc.
  rewrite E in Et; exact (trimEnd_last _ _ _ Et).
Qed.

(** *** [split] and [join] *)

Lemma split_not_nil (sep : char) (s : jsstring) : split sep s <> [].
Proof.
  induction s as [|c s IH]; simpl; [discriminate|].
  destruct (N.eqb c sep); [discriminate|].
  destruct (split sep s); [congruence | discriminate].
Qed.

Lemma split_no_sep (sep : char) (s : jsstring) :
  Forall (fun l => ~ In sep l) (split sep s).
Proof.
  induction s as [|c s IH]; simpl.
  - constructor; [tauto | constructor].
  - destruct (N.eqb_spec c sep) as [->|Hc].
    + constructor; [simpl; tauto | exact IH].
    + destruct (split sep s) as [|l ls]; inversion IH; subst;
        constructor; auto; simpl; intuition congruence.
Qed.

Lemma join_cons (sep l : jsstring) (a : list jsstring) :
  a <> [] -> join sep (l :: a) = l ++ sep ++ join sep a.
Proof. destruct a; [congruence | reflexivity]. Qed.

Lemma split_app_sep (sep : char) (l s : jsstring) :
  ~ In sep l -> split sep (l ++ sep :: s) = l :: split sep s.
Proof.
  induction l as [|c l IH]; simpl; intros H.
  - rewrite N.eqb_refl; reflexivity.
  - destruct (N.eqb_spec c sep) as [->|Hc]; [tauto|].
    rewrite IH by tauto; reflexivity.
Qed.

Lemma split_no_sep_id (sep : char) (l : jsstring) :
  ~ In sep l -> split sep l = [l].
Proof.
  induction l as [|c l IH]; simpl; intros H; [reflexivity|].
  destruct (N.eqb_spec c sep) as [->|Hc]; [tauto|].
  rewrite IH by tauto; reflexivity.
Qed.

Lemma split_join (sep : char) (a : list jsstring) :
  a <> [] -> Forall (fun l => ~ In sep l) a ->
  split sep (join [sep] a) = a.
Proof.
  induction a as [|l a IH]; [congruence|].
  intros _ H; inversion H as [|? ? Hl Ha]; subst.
  destruct a as [|l' a].
  - simpl; apply split_no_sep_id; exact Hl.
  - rewrite join_cons by discriminate.
    change ([sep] ++ join [sep] (l' :: a)) with (sep :: join [sep] (l' :: a)).
    rewrite split_app_sep by exact Hl.
    rewrite IH; [reflexivity | discriminate | exact Ha].
Qed.

Lemma join_split (sep : char) (s : jsstring) :
  join [sep] (split sep s) = s.
Proof.
  induction s as [|c s IH]; simpl; [reflexivity|].
  destruct (N.eqb_spec c sep) as [->|Hc].
  - rewrite join_cons by apply split_not_nil. rewrite IH; reflexivity.
  - pose proof (split_not_nil sep s) as Hne.
    destruct (split sep s) as [|l ls]; [congruence|].
    destruct ls as [|l' ls]; simpl in *; congruence.
Qed.

(** *** The three patterns of the tokenizer *)

Lemma lazyDotPlusThen_complete (tail p : jsstring) :
  p <> [] -> noLineTerminator p = true ->
  lazyDotPlusThen tail (p ++ tail) = Some p.
Proof.
  induction p as [|c p IH]; [congruence|].
  intros _ H; simpl in H; apply andb_true_iff in H as [Hc Hp].
  simpl. apply negb_true_iff in Hc; rewrite Hc.
  destruct p as [|d p].
  - simpl; rewrite eqb_refl; reflexivity.
  - assert (E : eqb ((d :: p) ++ tail) tail = false).
    { apply eqb_neq; intros E; apply (f_equal (@length char)) in E.
      rewrite length_app in E; simpl in E; lia. }
    rewrite E, IH; [reflexivity | discriminate | exact Hp].
Qed.

Lemma lazyDotPlusThen_sound (tail s p : jsstring) :
  lazyDotPlusThen tail s = Some p ->
  s = p ++ tail /\ p <> [] /\ noLineTerminator p = true.
Proof.
  revert p; induction s as [|c s IH]; simpl; intros p; [discriminate|].
  destruct (isLineTerminator c) eqn:Hc; [discriminate|].
  destruct (eqb s tail) eqn:E.
  - apply eqb_eq in E; subst s. intros H; injection H as <-.
    simpl; rewrite Hc; repeat split; discriminate.
  - destruct (lazyDotPlusThen tail s) as [q|]; [|discriminate].
    intros H; injection H as <-.
    destruct (IH q eq_refl) as [-> [_ Hq]].
    simpl; rewrite Hc, Hq; repeat split; discriminate.
Qed.

Lemma xmlMatch_iff (line p : jsstring) :
  xmlMatch line = Some p <-> line = xmlLine p /\ validPath p.
Proof.
  unfold xmlMatch, xmlLine, validPath; split.
  - destruct (stripPrefix xmlOpen line) as [rest|] eqn:E; [|discriminate].
    apply stripPrefix_Some in E; subst line.
    intros H; apply lazyDotPlusThen_sound in H as [-> H]; tauto.
  - intros [-> [Hne Hp]]. rewrite stripPrefix_app.
    apply lazyDotPlusThen_complete; assumption.
Qed.

Lemma hashMatch_iff (line p : jsstring) :
  hashMatch line = Some p <-> line = hashLine p /\ validPath p.
Proof.
  unfold hashMatch, hashLine, validPath, greedyDotPlusToEnd; split.
  - destruct (stripPrefix hashOpen line) as [rest|] eqn:E; [|discriminate].
    apply stripPrefix_Some in E; subst line.
    destruct rest as [|c rest]; [discriminate|].
    fold (noLineTerminator (c :: rest)).
    destruct (noLineTerminator (c :: rest)) eqn:H; [|discriminate].
    intros Hp; injection Hp as <-; repeat split; [discriminate | exact H].
  - intros [-> [Hne Hp]]. rewrite stripPrefix_app.
    destruct p as [|c p]; [congruence|].
    fold (noLineTerminator (c :: p)); rewrite Hp; reflexivity.
Qed.

Lemma xmlMatch_hashLine (p : jsstring) : xmlMatch (hashLine p) = None.
Proof. reflexivity. Qed.

Lemma opening_xmlLine (p : jsstring) :
  validPath p -> opening (xmlLine p) = Some p.
Proof.
  intros H; unfold opening.
  rewrite (proj2 (xmlMatch_iff (xmlLine p) p)); auto.
Qed.

Lemma opening_hashLine (p : jsstring) :
  validPath p -> opening (hashLine p) = Some p.
Proof.
  intros H; unfold opening. rewrite xmlMatch_hashLine.
  apply hashMatch_iff; auto.
Qed.

Lemma isDelimiter_xmlClose : isDelimiter xmlClose = true.
Proof. reflexivity. Qed.

Example xmlMatch_plain :
  xmlMatch (xmlLine (lit " src/a.ts")) = Some (lit " src/a.ts").
Proof. reflexivity. Qed.

(** The group runs up to the closing characters that end the line, where
    [$] pins them, and takes earlier ones with it. *)
Example xmlMatch_inner_close :
  xmlMatch (xmlLine (lit "a" ++ xmlOpenEnd ++ lit "b"))
    = Some (lit "a" ++ xmlOpenEnd ++ lit "b").
Proof. reflexivity. Qed.

Example xmlMatch_empty_path : xmlMatch (xmlLine []) = None.
Proof. reflexivity. Qed.

(** A line of a dump with CRLF line breaks keeps its carriage return, and
    matches no pattern. *)
Example delimiters_refuse_CR :
  xmlMatch (xmlLine (lit "a.ts") ++ [CR]) = None /\
  hashMatch (hashLine (lit "a.ts") ++ [CR]) = None /\
  closeMatch (xmlClose ++ [CR]) = false.
Proof. repeat split. Qed.

Example hashMatch_needs_a_path : hashMatch (lit "# File: ") = None.
Proof. reflexivity. Qed.

(** ** The tokenizer *)

Lemma tokStep_delimiter (st : TokState) (line : jsstring) :
  isDelimiter line = true ->
  tokStep st line =
    {| currentFile := openedBy line; fileBlocks := pushCurrent st |}.
Proof.
  unfold isDelimiter, openedBy, opening, tokStep.
  destruct (xmlMatch line); [reflexivity|].
  destruct (hashMatch line); [reflexivity|].
  simpl; intros ->; reflexivity.
Qed.

Lemma tokStep_plain (st : TokState) (line : jsstring) :
  isDelimiter line = false ->
  tokStep st line =
    match currentFile st with
    | Some f =>
        {| currentFile :=
             Some {| path := path f; content := content f ++ [line] |};
           fileBlocks := fileBlocks st |}
    | None => st
    end.
Proof.
  unfold isDelimiter, opening, tokStep.
  destruct (xmlMatch line); [discriminate|].
  destruct (hashMatch line); [discriminate|].
  intros ->; reflexivity.
Qed.

Lemma opening_isDelimiter (line p : jsstring) :
  opening line = Some p -> isDelimiter line = true.
Proof. unfold isDelimiter; intros ->; reflexivity. Qed.

Lemma tokLines_app (a b : list jsstring) (st : TokState) :
  tokLines (a ++ b) st = tokLines b (tokLines a st).
Proof. apply fold_left_app. Qed.

Lemma tokLines_plain_open (ls : list jsstring) (f : FileBlock)
  (bs : list FileBlock) :
  plainLines ls ->
  tokLines ls {| currentFile := Some f; fileBlocks := bs |} =
    {| currentFile := Some {| path := path f; content := content f ++ ls |};
       fileBlocks := bs |}.
Proof.
  revert f; induction ls as [|l ls IH]; intros f H.
  - simpl; rewrite app_nil_r; destruct f; reflexivity.
  - inversion H as [|? ? Hl Hls]; subst.
    unfold tokLines in *; simpl fold_left.
    rewrite (tokStep_plain _ _ Hl); simpl.
    rewrite IH by exact Hls; simpl.
    rewrite <- app_assoc; reflexivity.
Qed.

Lemma tokLines_plain_closed (ls : list jsstring) (bs : list FileBlock) :
  plainLines ls ->
  tokLines ls {| currentFile := None; fileBlocks := bs |} =
    {| currentFile := None; fileBlocks := bs |}.
Proof.
  induction ls as [|l ls IH]; intros H; [reflexivity|].
  inversion H as [|? ? Hl Hls]; subst.
  unfold tokLines in *; simpl fold_left.
  rewrite (tokStep_plain _ _ Hl); simpl. apply IH; exact Hls.
Qed.

(** The paths of the records follow the opening lines, one for one. *)
Lemma paths_tokStep (st : TokState) (line : jsstring) :
  map path (pushCurrent (tokStep st line)) =
    map path (pushCurrent st) ++ announcedPaths [line].
Proof.
  unfold announcedPaths; simpl; rewrite app_nil_r.
  destruct (isDelimiter line) eqn:D.
  - rewrite (tokStep_delimiter _ _ D).
    unfold openedBy, pushCurrent at 1; simpl.
    destruct (opening line); simpl.
    + rewrite map_app; reflexivity.
    + rewrite app_nil_r; reflexivity.
  - rewrite (tokStep_plain _ _ D).
    assert (E : opening line = None).
    { unfold isDelimiter in D; destruct (opening line); congruence. }
    rewrite E, app_nil_r.
    destruct st as [[f|] bs]; unfold pushCurrent; simpl;
      rewrite ?map_app; reflexivity.
Qed.

Lemma paths_tokLines (ls : list jsstring) (st : TokState) :
  map path (pushCurrent (tokLines ls st)) =
    map path (pushCurrent st) ++ announcedPaths ls.
Proof.
  revert st; induction ls as [|l ls IH]; intros st.
  - simpl; rewrite app_nil_r; reflexivity.
  - unfold tokLines in *; simpl fold_left.
    rewrite IH, paths_tokStep. unfold announcedPaths; simpl.
    rewrite app_nil_r, <- app_assoc; reflexivity.
Qed.

Lemma sealedIn_snoc (done : list jsstring) (r : FileBlock) (l : jsstring) :
  sealedIn done r -> sealedIn (done ++ [l]) r.
Proof.
  intros (pre & o & p & d & post & -> & Ho & Hp & Hc & Hd).
  exists pre, o, p, d, (post ++ [l]); repeat split; auto.
  rewrite <- app_assoc; simpl. rewrite <- app_assoc; reflexivity.
Qed.

Lemma openIn_seal (done : list jsstring) (f : FileBlock) (l : jsstring) :
  openIn done f -> isDelimiter l = true -> sealedIn (done ++ [l]) f.
Proof.
  intros (pre & o & p & -> & Ho & Hp & Hc) Hd.
  exists pre, o, p, l, []; repeat split; auto.
  rewrite <- app_assoc; reflexivity.
Qed.

Lemma tokInvariant_step (done : list jsstring) (st : TokState)
  (l : jsstring) :
  tokInvariant done st -> tokInvariant (done ++ [l]) (tokStep st l).
Proof.
  intros [Hs Ho]. destruct (isDelimiter l) eqn:D.
  - rewrite (tokStep_delimiter _ _ D); split; simpl.
    + unfold pushCurrent. destruct (currentFile st) as [f|] eqn:E.
      * apply Forall_app; split.
        -- eapply Forall_impl; [|exact Hs]. intros r; apply sealedIn_snoc.
        -- constructor; [|constructor].
           apply openIn_seal; auto.
      * eapply Forall_impl; [|exact Hs]. intros r; apply sealedIn_snoc.
    + unfold openedBy. destruct (opening l) as [p|] eqn:E; [|discriminate].
      intros f H; injection H as <-.
      exists done, l, p; simpl; repeat split; auto. constructor.
  - rewrite (tokStep_plain _ _ D).
    destruct (currentFile st) as [f|] eqn:E.
    + split; simpl.
      * eapply Forall_impl; [|exact Hs]. intros r; apply sealedIn_snoc.
      * intros f' H; injection H as <-.
        destruct (Ho f eq_refl) as (pre & o & p & -> & Hop & Hp & Hc).
        exists pre, o, p; simpl; repeat split; auto.
        -- rewrite <- app_assoc; reflexivity.
        -- apply Forall_app; split; [exact Hc|].
           constructor; [exact D | constructor].
    + split.
      * eapply Forall_impl; [|exact Hs]. intros r; apply sealedIn_snoc.
      * rewrite E; discriminate.
Qed.

Lemma tokInvariant_lines (ls : list jsstring) :
  tokInvariant ls (tokLines ls tokInit).
Proof.
  induction ls as [|l ls IH] using rev_ind.
  - split; [constructor | discriminate].
  - rewrite tokLines_app; simpl. apply tokInvariant_step; exact IH.
Qed.

Lemma blockOf_pushCurrent (ls : list jsstring) (st : TokState) :
  tokInvariant ls st -> Forall (blockOf ls) (pushCurrent st).
Proof.
  intros [Hs Ho].
  assert (Hb : Forall (blockOf ls) (fileBlocks st)).
  { eapply Forall_impl; [|exact Hs].
    intros r (pre & o & p & d & post & E & H1 & H2 & H3 & H4).
    exists pre, o, p, (d :: post); auto. }
  unfold pushCurrent; destruct (currentFile st) as [f|]; [|exact Hb].
  apply Forall_app; split; [exact Hb|].
  constructor; [|constructor].
  destruct (Ho f eq_refl) as (pre & o & p & E & H1 & H2 & H3).
  exists pre, o, p, []; rewrite app_nil_r; auto.
Qed.

Lemma tokLines_open_block (o p : jsstring) (rest : list jsstring)
  (st : TokState) :
  opening o = Some p -> plainLines rest ->
  tokLines (o :: rest) st =
    {| currentFile := Some {| path := trim p; content := rest |};
       fileBlocks := pushCurrent st |}.
Proof.
  intros Ho Hr. unfold tokLines; simpl fold_left.
  rewrite (tokStep_delimiter _ _ (opening_isDelimiter _ _ Ho)).
  unfold openedBy; rewrite Ho; simpl.
  exact (tokLines_plain_open rest {| path := trim p; content := [] |} _ Hr).
Qed.

Lemma tokLines_close_block (mid : list jsstring) (st : TokState) :
  plainLines mid ->
  tokLines (xmlClose :: mid) st =
    {| currentFile := None; fileBlocks := pushCurrent st |}.
Proof.
  intros Hm. unfold tokLines; simpl fold_left.
  rewrite (tokStep_delimiter _ _ isDelimiter_xmlClose).
  apply (tokLines_plain_closed mid _ Hm).
Qed.

Lemma opening_of_line (o p : jsstring) :
  validPath p -> o = xmlLine p \/ o = hashLine p -> opening o = Some p.
Proof.
  intros Hp [-> | ->]; [apply opening_xmlLine | apply opening_hashLine];
    exact Hp.
Qed.

Lemma parse_last_block (raw : jsstring) (pre : list jsstring)
  (o p : jsstring) (rest : list jsstring) :
  split LF raw = pre ++ o :: rest ->
  opening o = Some p -> plainLines rest ->
  parse raw =
    pushCurrent (tokLines pre tokInit)
      ++ [{| path := trim p; content := rest |}].
Proof.
  intros E Ho Hr. unfold parse. rewrite E, tokLines_app.
  rewrite (tokLines_open_block _ _ _ _ Ho Hr). reflexivity.
Qed.

(** C1. The tokenizer partitions the lines of a dump among the records
    without leakage.  At every delimiter line (an opening line of either
    syntax, or the closing tag) the open record, if any, is appended to
    [fileBlocks] before the new record, with empty content, takes its place;
    any other line leaves [fileBlocks] alone.  For every dump the records
    answer the opening lines one for one and in order, and each record holds
    exactly the lines between its opening line and the next delimiter (or
    the end).  A dump with one file in the XML-like syntax followed by one
    file in the heading syntax gives exactly two records, each with its own
    path and its own lines. *)
Theorem tokenizer_no_leakage :
  (forall st line,
     isDelimiter line = true ->
     fileBlocks (tokStep st line) = pushCurrent st /\
     currentFile (tokStep st line) = openedBy line) /\
  (forall st line,
     isDelimiter line = false ->
     fileBlocks (tokStep st line) = fileBlocks st) /\
  (forall raw,
     map path (parse raw) = announcedPaths (split LF raw) /\
     Forall (blockOf (split LF raw)) (parse raw)) /\
  (forall raw pre p1 L1 sep p2 L2,
     validPath p1 -> validPath p2 ->
     plainLines pre -> plainLines L1 -> plainLines L2 ->
     sep = [] \/ (exists mid, sep = xmlClose :: mid /\ plainLines mid) ->
     split LF raw = pre ++ xmlLine p1 :: L1 ++ sep ++ hashLine p2 :: L2 ->
     parse raw = [ {| path := trim p1; content := L1 |};
                   {| path := trim p2; content := L2 |} ]).
Proof.
  split; [|split; [|split]].
  - intros st line D. rewrite (tokStep_delimiter _ _ D); split; reflexivity.
  - intros st line D. rewrite (tokStep_plain _ _ D).
    destruct (currentFile st); reflexivity.
  - intros raw; split.
    + unfold parse. rewrite paths_tokLines; reflexivity.
    + apply blockOf_pushCurrent, tokInvariant_lines.
  - intros raw pre p1 L1 sep p2 L2 V1 V2 Hpre H1 H2 Hsep E.
    assert (E' : split LF raw =
                 (pre ++ xmlLine p1 :: L1 ++ sep) ++ hashLine p2 :: L2).
    { rewrite E, <- !app_assoc; simpl. rewrite <- app_assoc; reflexivity. }
    rewrite (parse_last_block _ _ _ _ _ E' (opening_hashLine _ V2) H2).
    rewrite tokLines_app. unfold tokInit.
    rewrite (tokLines_plain_closed pre _ Hpre).
    change (xmlLine p1 :: L1 ++ sep) with ((xmlLine p1 :: L1) ++ sep).
    rewrite tokLines_app.
    rewrite (tokLines_open_block _ _ _ _ (opening_xmlLine _ V1) H1).
    destruct Hsep as [-> | [mid [-> Hmid]]].
    + reflexivity.
    + rewrite (tokLines_close_block _ _ Hmid). reflexivity.
Qed.

(** C5. When the dump ends while a record is open, the record is sealed at
    the end of the input: if no delimiter follows the opening line [o] of
    the path [p], in the heading syntax (which has no closing line) or in
    the XML-like one, the last record of the result has the path announced
    and, as content, every line after [o]; the records before it are those
    of the lines before [o]. *)
Theorem unclosed_record_sealed_at_end :
  forall raw pre o p rest,
    split LF raw = pre ++ o :: rest ->
    validPath p -> o = hashLine p \/ o = xmlLine p ->
    plainLines rest ->
    parse raw =
      pushCurrent (tokLines pre tokInit)
        ++ [{| path := trim p; content := rest |}].
Proof.
  intros raw pre o p rest E Vp Ho Hr.
  apply (parse_last_block raw pre o p rest E); [|exact Hr].
  apply opening_of_line; tauto.
Qed.

Lemma tokenizer_no_leakage_witness :
  (fileBlocks (tokStep {| currentFile :=
                            Some {| path := lit "a"; content := [lit "x"] |};
                          fileBlocks := [] |} (hashLine (lit "b")))
     = [ {| path := lit "a"; content := [lit "x"] |} ] /\
   currentFile (tokStep {| currentFile :=
                             Some {| path := lit "a"; content := [lit "x"] |};
                           fileBlocks := [] |} (hashLine (lit "b")))
     = Some {| path := lit "b"; content := [] |}) /\
  parse mixDump =
    [ {| path := lit "src/a.ts";
         content := [lit "const a = 1;"; lit "# File list"] |};
      {| path := lit "docs/B.md"; content := [lit "hello"; lit ""] |} ].
Proof.
  split.
  - apply (proj1 tokenizer_no_leakage). reflexivity.
  - apply (proj2 (proj2 (proj2 tokenizer_no_leakage)) mixDump
             [lit "This file is a merged representation of the codebase."]
             (lit "src/a.ts") [lit "const a = 1;"; lit "# File list"]
             [xmlClose; lit ""] (lit "docs/B.md ") [lit "hello"; lit ""]).
    + split; [discriminate | reflexivity].
    + split; [discriminate | reflexivity].
    + repeat constructor.
    + repeat constructor.
    + repeat constructor.
    + right; exists [lit ""]; split; [reflexivity | repeat constructor].
    + reflexivity.
Defined.

Lemma unclosed_record_sealed_at_end_witness :
  parse mixDump =
    [ {| path := lit "src/a.ts";
         content := [lit "const a = 1;"; lit "# File list"] |} ]
      ++ [ {| path := lit "docs/B.md"; content := [lit "hello"; lit ""] |} ].
Proof.
  apply (unclosed_record_sealed_at_end mixDump (firstn 6 mixLines)
           (hashLine (lit "docs/B.md ")) (lit "docs/B.md ")
           [lit "hello"; lit ""]).
  - reflexivity.
  - split; [discriminate | reflexivity].
  - left; reflexivity.
  - repeat constructor.
Defined.

(** ** The snippet *)

Lemma digits_isDigit (u : Decimal.uint) : forallb isDigit (digits u) = true.
Proof. induction u; simpl; auto. Qed.

Lemma to_uint_not_Nil (n : nat) : Nat.to_uint n <> Nil.
Proof.
  rewrite <- (DecimalNat.Unsigned.of_to n) at 1.
  rewrite DecimalNat.Unsigned.to_of. unfold unorm.
  destruct (nzhead (Nat.to_uint n)); discriminate.
Qed.

Lemma isDigit_not_space (c : char) :
  isDigit c = true -> isWhiteSpace c = false.
Proof.
  unfold isDigit, isWhiteSpace; intros H.
  apply andb_true_iff in H as [H1 H2].
  apply N.leb_le in H1, H2.
  repeat match goal with
  | |- context [N.leb ?a ?b] => destruct (N.leb_spec a b)
  | |- context [N.eqb ?a ?b] => destruct (N.eqb_spec a b)
  end; simpl; try reflexivity; lia.
Qed.

Lemma numberToString_digits (n : nat) :
  forallb isDigit (numberToString n) = true.
Proof. apply digits_isDigit. Qed.

Lemma numberToString_head (n : nat) :
  exists d rest, numberToString n = d :: rest /\ isDigit d = true.
Proof.
  pose proof (numberToString_digits n) as H.
  pose proof (to_uint_not_Nil n) as Hn.
  unfold numberToString in *.
  destruct (Nat.to_uint n); try congruence; simpl in *;
    eexists _, _; split; reflexivity.
Qed.

Lemma numberToString_no_LF (n : nat) : ~ In LF (numberToString n).
Proof.
  pose proof (numberToString_digits n) as H.
  rewrite forallb_forall in H. intros Hin.
  apply H in Hin; discriminate.
Qed.

(** *** The loop builds the concatenation of the rendered lines *)

Lemma snippetLoop_spec (i : nat) (ls : list jsstring) (acc : jsstring) :
  snippetLoop i ls acc =
    acc ++ concat (map (fun il => renderLine (fst il) (snd il))
                     (indexedFrom (i + 1) ls)).
Proof.
  revert i acc; induction ls as [|l ls IH]; intros i acc; simpl.
  - rewrite app_nil_r; reflexivity.
  - rewrite IH. unfold indexedFrom, renderLine; simpl.
    rewrite <- app_assoc. replace (S i + 1) with (S (i + 1)) by lia.
    reflexivity.
Qed.

Lemma clampIndex_nonneg (len : nat) (k : Z) :
  (0 <= k)%Z -> clampIndex len k = Nat.min (Z.to_nat k) len.
Proof.
  intros H; unfold clampIndex.
  destruct (Z.ltb_spec k 0); [lia | reflexivity].
Qed.

Lemma clampIndex_neg (len : nat) (k : Z) :
  (k < 0)%Z -> clampIndex len k = len - Z.to_nat (- k).
Proof.
  intros H; unfold clampIndex.
  destruct (Z.ltb_spec k 0); lia.
Qed.

Lemma slice_from_0 {A : Type} (l : list A) (k : Z) :
  slice l 0 (Some k) = firstn (clampIndex (length l) k) l.
Proof.
  unfold slice. rewrite (clampIndex_nonneg (length l) 0) by lia.
  simpl. rewrite Nat.sub_0_r; reflexivity.
Qed.

Lemma snippetOf_spec (found : FileBlock) (m : Z) :
  snippetOf found (Some m) =
    renderLines (firstn (clampIndex (length (content found)) m)
                   (content found)).
Proof.
  unfold snippetOf. rewrite slice_from_0, snippetLoop_spec. reflexivity.
Qed.

Lemma extract_spec (found : FileBlock) (m : Z) :
  extract found (Some m) =
    trim (renderLines (firstn (clampIndex (length (content found)) m)
                         (content found))).
Proof. unfold extract; rewrite snippetOf_spec; reflexivity. Qed.

(** *** What [trim] does to the snippet *)

Lemma renderLine_spaced (i : nat) (l : jsstring) :
  renderLine i l = (SPACE :: numberedLine i l) ++ [LF].
Proof.
  unfold renderLine, numberedLine; simpl.
  rewrite <- !app_assoc; reflexivity.
Qed.

Lemma trimStart_numberedLine (i : nat) (l t : jsstring) :
  trimStart (numberedLine i l ++ t) = numberedLine i l ++ t.
Proof.
  unfold numberedLine.
  destruct (numberToString_head i) as (d & rest & -> & Hd).
  simpl. apply trimStart_cons, isDigit_not_space, Hd.
Qed.

Lemma renderLines_cons (l : jsstring) (rest : list jsstring) :
  renderLines (l :: rest) =
    SPACE :: numberedLine 1 l ++ LF
      :: concat (map (fun il => renderLine (fst il) (snd il))
                   (indexedFrom 2 rest)).
Proof.
  unfold renderLines, indexedFrom.
  cbn [length seq combine map concat fst snd].
  rewrite renderLine_spaced, <- app_assoc; reflexivity.
Qed.

Lemma trimStart_renderLines (ls : list jsstring) :
  trimStart (renderLines ls) = tl (renderLines ls).
Proof.
  destruct ls as [|l rest]; [reflexivity|].
  rewrite renderLines_cons; simpl tl.
  rewrite trimStart_space by reflexivity.
  apply trimStart_numberedLine.
Qed.

Lemma trim_renderLines (ls : list jsstring) :
  trim (renderLines ls) = trimEnd (tl (renderLines ls)).
Proof. unfold trim; rewrite trimStart_renderLines; reflexivity. Qed.

Lemma trimEnd_not_nil (x : jsstring) (c : char) :
  In c x -> isWhiteSpace c = false -> trimEnd x <> [].
Proof.
  intros Hin Hc E.
  destruct (trimEnd_decompose x) as [w [Ex Hw]].
  rewrite E in Ex; simpl in Ex; subst w.
  rewrite forallb_forall in Hw. rewrite (Hw _ Hin) in Hc; discriminate.
Qed.

Lemma trimEnd_incl (x : jsstring) (c : char) : In c (trimEnd x) -> In c x.
Proof.
  intros H. destruct (trimEnd_decompose x) as [w [Ex _]].
  rewrite Ex; apply in_or_app; left; exact H.
Qed.

Lemma numberedLine_has_digit (i : nat) (l : jsstring) :
  exists d, In d (numberedLine i l) /\ isWhiteSpace d = false.
Proof.
  unfold numberedLine.
  destruct (numberToString_head i) as (d & rest & -> & Hd).
  exists d; split; [left; reflexivity | apply isDigit_not_space, Hd].
Qed.

Lemma numberedLine_no_LF (i : nat) (l : jsstring) :
  ~ In LF l -> ~ In LF (numberedLine i l).
Proof.
  unfold numberedLine; intros Hl H.
  apply in_app_or in H as [H | H]; [exact (numberToString_no_LF i H)|].
  apply in_app_or in H as [H | H]; [|exact (Hl H)].
  simpl in H; intuition discriminate.
Qed.

(** *** The body, line by line *)

Lemma terminated_join (xs : list jsstring) :
  xs <> [] ->
  concat (map (fun l => l ++ [LF]) xs) = join [LF] xs ++ [LF].
Proof.
  induction xs as [|x xs IH]; [congruence|]. intros _.
  destruct xs as [|y xs].
  - simpl; rewrite app_nil_r; reflexivity.
  - rewrite join_cons by discriminate.
    simpl concat in *; simpl map in *.
    rewrite IH by discriminate. rewrite <- !app_assoc; reflexivity.
Qed.

Lemma join_snoc (sep : jsstring) (init : list jsstring) (x : jsstring) :
  join sep (init ++ [x]) = concat (map (fun l => l ++ sep) init) ++ x.
Proof.
  induction init as [|y init IH]; [reflexivity|].
  change ((y :: init) ++ [x]) with (y :: (init ++ [x])).
  rewrite join_cons by (destruct init; discriminate).
  rewrite IH; simpl. rewrite <- !app_assoc; reflexivity.
Qed.

Lemma mapLast_snoc {A : Type} (f : A -> A) (init : list A) (x : A) :
  mapLast f (init ++ [x]) = init ++ [f x].
Proof.
  induction init as [|y init IH]; [reflexivity|].
  simpl. rewrite IH. destruct (init ++ [x]) eqn:E; [|reflexivity].
  destruct init; discriminate.
Qed.

Lemma Forall_mapLast {A : Type} (P : A -> Prop) (f : A -> A) (l : list A) :
  (forall x, P x -> P (f x)) -> Forall P l -> Forall P (mapLast f l).
Proof.
  intros Hf; induction l as [|x l IH]; intros H; [constructor|].
  inversion H; subst. destruct l as [|y l].
  - constructor; auto.
  - change (Forall P (x :: mapLast f (y :: l))). constructor; auto.
Qed.

Lemma mapLast_not_nil {A : Type} (f : A -> A) (l : list A) :
  l <> [] -> mapLast f l <> [].
Proof. destruct l as [|x [|y l]]; simpl; congruence. Qed.

Lemma trimEnd_join (xs : list jsstring) :
  Forall (fun x => trimEnd x <> []) xs ->
  trimEnd (join [LF] xs) = join [LF] (mapLast trimEnd xs).
Proof.
  intros H. destruct xs as [|x0 xs0]; [reflexivity|].
  assert (Hne : x0 :: xs0 <> []) by discriminate.
  destruct (exists_last Hne) as [init [x E]]. rewrite E in *.
  rewrite mapLast_snoc, !join_snoc.
  apply trimEnd_app_keep.
  apply Forall_app in H as [_ H]; inversion H; assumption.
Qed.

Lemma tl_renderLines (ls : list jsstring) :
  ls <> [] -> tl (renderLines ls) = join [LF] (bodyLines ls) ++ [LF].
Proof.
  destruct ls as [|l rest]; [congruence|]. intros _.
  rewrite renderLines_cons; simpl tl.
  rewrite <- terminated_join by discriminate.
  unfold bodyLines. cbn [map concat].
  rewrite <- app_assoc, map_map.
  apply (f_equal (app (numberedLine 1 l))), (f_equal (cons LF)).
  apply (f_equal (@concat char)), map_ext.
  intros il; apply renderLine_spaced.
Qed.

Lemma bodyLines_visible (ls : list jsstring) :
  ls <> [] -> Forall (fun x => trimEnd x <> []) (bodyLines ls).
Proof.
  destruct ls as [|l rest]; [congruence|]. intros _.
  simpl; constructor.
  - destruct (numberedLine_has_digit 1 l) as [d [Hin Hd]].
    exact (trimEnd_not_nil _ _ Hin Hd).
  - apply Forall_forall; intros x Hx.
    apply in_map_iff in Hx as [[i l'] [<- _]]; simpl.
    destruct (numberedLine_has_digit i l') as [d [Hin Hd]].
    apply (trimEnd_not_nil _ d); [right; exact Hin | exact Hd].
Qed.

Lemma bodyLines_no_LF (ls : list jsstring) :
  Forall (fun l => ~ In LF l) ls ->
  Forall (fun l => ~ In LF l) (bodyLines ls).
Proof.
  destruct ls as [|l rest]; intros H.
  - constructor; [simpl; tauto | constructor].
  - inversion H as [|? ? Hl Hrest]; subst. simpl; constructor.
    + apply numberedLine_no_LF; exact Hl.
    + apply Forall_forall; intros x Hx.
      apply in_map_iff in Hx as [[i l'] [<- Hin]]; simpl.
      apply in_combine_r in Hin. rewrite Forall_forall in Hrest.
      intros [E | Hx]; [discriminate|].
      exact (numberedLine_no_LF i _ (Hrest _ Hin) Hx).
Qed.

(** The body that numbers all of [ls], cut at the line breaks. *)
Lemma body_lines (ls : list jsstring) :
  Forall (fun l => ~ In LF l) ls ->
  split LF (trim (renderLines ls)) = mapLast trimEnd (bodyLines ls).
Proof.
  intros H. destruct ls as [|l rest]; [reflexivity|].
  assert (Hne : l :: rest <> []) by discriminate.
  rewrite trim_renderLines, (tl_renderLines _ Hne).
  rewrite trimEnd_snoc_space by reflexivity.
  rewrite (trimEnd_join _ (bodyLines_visible _ Hne)).
  apply split_join.
  - apply mapLast_not_nil; discriminate.
  - apply Forall_mapLast; [|apply bodyLines_no_LF; exact H].
    intros x Hx Hin; exact (Hx (trimEnd_incl _ _ Hin)).
Qed.

Lemma parse_content_no_LF (raw : jsstring) (r : FileBlock) :
  In r (parse raw) -> Forall (fun l => ~ In LF l) (content r).
Proof.
  intros Hin.
  pose proof (blockOf_pushCurrent _ _ (tokInvariant_lines (split LF raw)))
    as Hb.
  rewrite Forall_forall in Hb.
  destruct (Hb r Hin) as (pre & o & p & post & E & _).
  pose proof (split_no_sep LF raw) as Hs. rewrite E in Hs.
  apply Forall_app in Hs as [_ Hs]. inversion Hs as [|? ? _ Hs']; subst.
  apply Forall_app in Hs' as [Hc _]; exact Hc.
Qed.

Lemma clampIndex_length (len : nat) :
  clampIndex len (Z.of_nat len) = len.
Proof. rewrite clampIndex_nonneg by lia. lia. Qed.

Lemma trim_renderLines_not_nil (ls : list jsstring) :
  ls <> [] -> trim (renderLines ls) <> [].
Proof.
  destruct ls as [|l rest]; [congruence|]. intros _.
  rewrite trim_renderLines, renderLines_cons; simpl tl.
  destruct (numberedLine_has_digit 1 l) as [d [Hin Hd]].
  exact (trimEnd_not_nil _ d
           (in_or_app (numberedLine 1 l) _ d (or_introl Hin)) Hd).
Qed.

(** *** When the body reproduces the lines *)

Lemma prefixed_app (a b c d : list jsstring) :
  length a = length c ->
  prefixed (a ++ b) (c ++ d) = prefixed a c ++ prefixed b d.
Proof.
  unfold prefixed. revert c; induction a as [|x a IH]; intros [|y c] H;
    try discriminate H; [reflexivity|].
  simpl. rewrite IH by (injection H; auto). reflexivity.
Qed.

Lemma prefixed_snoc (qs : list jsstring) (q : jsstring)
  (init : list jsstring) (l : jsstring) :
  length qs = length init ->
  prefixed (qs ++ [q]) (init ++ [l]) = prefixed qs init ++ [q ++ l].
Proof. intros H; rewrite prefixed_app by exact H; reflexivity. Qed.

Lemma prefixes_snoc (qs init : list jsstring) (l : jsstring) :
  length qs = length (init ++ [l]) ->
  exists qinit q, qs = qinit ++ [q] /\ length qinit = length init.
Proof.
  intros H. rewrite length_app in H; simpl in H.
  assert (Hne : qs <> []) by (intros ->; simpl in H; lia).
  destruct (exists_last Hne) as [qinit [q ->]].
  exists qinit, q; split; [reflexivity|].
  rewrite length_app in H; simpl in H; lia.
Qed.

Lemma spaced_prefixed (idx : list nat) (ls : list jsstring) :
  map (fun il => SPACE :: numberedLine (fst il) (snd il)) (combine idx ls)
    = prefixed (map (fun i => SPACE :: numberToString i ++ lit ": ") idx) ls.
Proof.
  unfold prefixed. revert ls; induction idx as [|i idx IH]; intros [|l ls];
    try reflexivity.
  cbn [map combine fst snd]. rewrite IH. f_equal.
  unfold numberedLine.
  exact (f_equal (cons SPACE) (app_assoc (numberToString i) (lit ": ") l)).
Qed.

Lemma bodyLines_prefixed (ls : list jsstring) :
  ls <> [] ->
  exists ps, length ps = length ls /\ bodyLines ls = prefixed ps ls.
Proof.
  destruct ls as [|l rest]; [congruence|]. intros _.
  exists ((numberToString 1 ++ lit ": ")
            :: map (fun i => SPACE :: numberToString i ++ lit ": ")
                 (seq 2 (length rest))).
  split.
  - simpl. rewrite length_map, length_seq; reflexivity.
  - unfold bodyLines, indexedFrom. rewrite spaced_prefixed.
    reflexivity.
Qed.

Lemma bodyLines_snoc (init : list jsstring) (l : jsstring) :
  exists ps p,
    length ps = length init /\
    bodyLines (init ++ [l]) = prefixed ps init ++ [p ++ l].
Proof.
  assert (Hne : init ++ [l] <> []) by (destruct init; discriminate).
  destruct (bodyLines_prefixed _ Hne) as (qs & Hlen & E).
  destruct (prefixes_snoc _ _ _ Hlen) as (ps & p & -> & Hps).
  exists ps, p; split; [exact Hps|].
  rewrite E. apply prefixed_snoc; exact Hps.
Qed.

Lemma linesOf_not_nil (body : jsstring) :
  body <> [] -> linesOf body = split LF body.
Proof. destruct body; [congruence | reflexivity]. Qed.

Lemma trimEnd_fixed (l : jsstring) :
  trimEnd l = l <->
  (forall u w, l = u ++ [w] -> isWhiteSpace w = false).
Proof.
  split.
  - intros E u w ->. exact (trimEnd_last _ _ _ E).
  - intros H. destruct l as [|c l']; [reflexivity|].
    assert (Hne : c :: l' <> []) by discriminate.
    destruct (exists_last Hne) as [u [w E]]. rewrite E.
    apply trimEnd_snoc, (H u w E).
Qed.

(** The body reproduces the lines exactly when the last one does not end
    with white space. *)
Lemma reproduces_iff (ls : list jsstring) :
  Forall (fun l => ~ In LF l) ls ->
  reproduces (trim (renderLines ls)) ls <->
  (forall init l, ls = init ++ [l] -> trimEnd l = l).
Proof.
  intros Hlf. pose proof (body_lines ls Hlf) as Hsplit. split.
  - intros (qs & Hlen & HQ) init l ->.
    rewrite linesOf_not_nil in HQ
      by (apply trim_renderLines_not_nil; destruct init; discriminate).
    rewrite Hsplit in HQ.
    destruct (bodyLines_snoc init l) as (ps & p & Hps & EB).
    destruct (prefixes_snoc _ _ _ Hlen) as (qinit & q & -> & Hq).
    rewrite EB, mapLast_snoc, (prefixed_snoc _ _ _ _ Hq) in HQ.
    apply app_inj_tail in HQ as [_ HQ].
    apply trimEnd_fixed. intros u w ->.
    rewrite !app_assoc in HQ. exact (trimEnd_last _ _ _ HQ).
  - intros Hlast. destruct ls as [|l0 ls0].
    { exists []; split; reflexivity. }
    assert (Hne : l0 :: ls0 <> []) by discriminate.
    destruct (exists_last Hne) as [init [l E]].
    rewrite E in Hsplit, Hlast, Hne |- *. clear E Hlf.
    pose proof (Hlast init l eq_refl) as Hl.
    destruct (bodyLines_snoc init l) as (ps & p & Hps & EB).
    assert (Hp : exists p', trimEnd (p ++ l) = p' ++ l).
    { destruct l as [|c l'].
      - exists (trimEnd p); rewrite !app_nil_r; reflexivity.
      - exists p. rewrite trimEnd_app_keep; rewrite Hl;
          [reflexivity | discriminate]. }
    destruct Hp as [p' Hp].
    exists (ps ++ [p']); split.
    + rewrite !length_app; simpl; lia.
    + rewrite linesOf_not_nil by (apply trim_renderLines_not_nil; exact Hne).
      rewrite Hsplit, EB, mapLast_snoc, Hp.
      symmetry; apply prefixed_snoc; exact Hps.
Qed.

(** C2, as the code has it.  For every record [r] the tokenizer produces,
    with content [L], the body [extract(r, length(L))] is the trimmed
    concatenation of all the rendered lines, and cut at its line breaks it
    has one line for each line of [L], in order: ["{i}: {L[i]}"], with a
    space before it except on the first line, and with the white space at
    the end of the last line removed.  So every line but the last is
    reproduced as it is, and the last one up to the white space it ends
    with: the body reproduces [L] exactly when the last line of [L] does
    not end with white space. *)
Theorem roundtrip_up_to_trim :
  forall raw r,
    In r (parse raw) ->
    extract r (Some (Z.of_nat (length (content r))))
      = trim (renderLines (content r)) /\
    split LF (extract r (Some (Z.of_nat (length (content r)))))
      = mapLast trimEnd (bodyLines (content r)) /\
    (reproduces (extract r (Some (Z.of_nat (length (content r)))))
       (content r) <->
     (forall init l, content r = init ++ [l] -> trimEnd l = l)).
Proof.
  intros raw r Hin.
  pose proof (parse_content_no_LF raw r Hin) as Hlf.
  assert (E : extract r (Some (Z.of_nat (length (content r))))
              = trim (renderLines (content r))).
  { rewrite extract_spec, clampIndex_length, firstn_all; reflexivity. }
  rewrite E. split; [reflexivity | split].
  - apply body_lines, Hlf.
  - apply reproduces_iff, Hlf.
Qed.

Lemma roundtrip_up_to_trim_witness :
  split LF (extract {| path := lit "docs/B.md";
                       content := [lit "hello"; lit ""] |} (Some 2%Z))
    = [lit "1: hello"; lit " 2:"].
Proof.
  apply (proj1 (proj2 (roundtrip_up_to_trim mixDump
                          {| path := lit "docs/B.md";
                             content := [lit "hello"; lit ""] |}
                          (or_intror (or_introl eq_refl))))).
Defined.

(** C2, as the specification states it, fails: the only line of the file
    [a.ts] of [spaceDump] is ["foo "], and the body ["1: foo"] has no line
    that ends with it. *)
Lemma roundtrip_loses_trailing_space :
  exists r,
    In r (parse spaceDump) /\
    ~ reproduces (extract r (Some (Z.of_nat (length (content r)))))
        (content r).
Proof.
  exists {| path := lit "a.ts"; content := [lit "foo "] |}.
  split; [left; reflexivity|].
  intros [prefixes [Hlen E]].
  destruct prefixes as [|p [|q prefixes]]; try discriminate Hlen.
  change (lit "1: foo" :: nil = [p ++ lit "foo "]) in E.
  injection E as E. apply (f_equal (@rev char)) in E.
  rewrite rev_app_distr in E. discriminate E.
Qed.

(** C3, as the code has it.  For [maxLines >= 0] the body is the
    concatenation of the first [min(maxLines, length)] rendered lines with
    the white space trimmed at both ends: [trim] also removes the space
    that starts the first line, and nothing more at that end. *)
Theorem extract_trims_both_ends :
  forall r m,
    (0 <= m)%Z ->
    let shown :=
      firstn (Nat.min (Z.to_nat m) (length (content r))) (content r) in
    extract r (Some m) = trim (renderLines shown) /\
    extract r (Some m) = trimEnd (tl (renderLines shown)).
Proof.
  intros r m Hm shown; subst shown.
  rewrite extract_spec, clampIndex_nonneg by exact Hm.
  split; [reflexivity | apply trim_renderLines].
Qed.

Lemma extract_trims_both_ends_witness :
  extract {| path := lit "a.ts"; content := [lit "x"; lit "y"; lit "z"] |}
    (Some 2%Z) = lit "1: x" ++ LF :: lit " 2: y".
Proof.
  apply (proj1 (extract_trims_both_ends
                  {| path := lit "a.ts";
                     content := [lit "x"; lit "y"; lit "z"] |} 2
                  ltac:(lia))).
Defined.

(** C3, as the specification states it, fails: the body of the first line
    of a file starts with ["1"], not with the space of the rendering. *)
Lemma extract_not_as_specified :
  ~ (forall r m, (0 <= m)%Z -> extract r (Some m) = extractAsSpecified r m).
Proof.
  intros H.
  specialize (H {| path := lit "a.ts"; content := [lit "x"] |} 1%Z
                ltac:(lia)).
  discriminate H.
Qed.

(** C6.  [extract(record, 0)] is the empty body; for [N] beyond the number
    of content lines the body numbers every line, as
    [extract(record, length)] does, and nothing fails; and when the caller
    leaves [maxLines] out, the extractor and the whole operation behave as
    with 40. *)
Theorem maxLines_boundary :
  (forall r, extract r (Some 0%Z) = []) /\
  (forall r N,
     (Z.of_nat (length (content r)) < N)%Z ->
     extract r (Some N) = trim (renderLines (content r)) /\
     extract r (Some N) = extract r (Some (Z.of_nat (length (content r))))) /\
  (forall r, extract r None = extract r (Some 40%Z)) /\
  (forall toLowerCase fs file codebase,
     searchCodebase toLowerCase fs file codebase None
       = searchCodebase toLowerCase fs file codebase (Some 40%Z)).
Proof.
  split; [|split; [|split]].
  - intros r. rewrite extract_spec. reflexivity.
  - intros r N HN.
    assert (E : clampIndex (length (content r)) N = length (content r)).
    { rewrite clampIndex_nonneg by lia. lia. }
    rewrite !extract_spec, E, clampIndex_length, firstn_all.
    split; reflexivity.
  - reflexivity.
  - reflexivity.
Qed.

Lemma maxLines_boundary_witness :
  extract {| path := lit "a.ts"; content := [lit "x"; lit "y"] |}
    (Some 1000%Z) = lit "1: x" ++ LF :: lit " 2: y".
Proof.
  apply (proj1 (proj1 (proj2 maxLines_boundary)
                  {| path := lit "a.ts"; content := [lit "x"; lit "y"] |}
                  1000%Z ltac:(simpl; lia))).
Defined.

Lemma extract_negative_integer (r : FileBlock) (m : Z) :
  content r <> [] -> (m < 0)%Z ->
  let kept :=
    firstn (length (content r) - Z.to_nat (- m)) (content r) in
  extract r (Some m) = trim (renderLines kept) /\
  (exists dropped,
     content r = kept ++ dropped /\
     length dropped = Nat.min (Z.to_nat (- m)) (length (content r))) /\
  (extract r (Some m) = [] <-> length (content r) <= Z.to_nat (- m)).
Proof.
  intros Hne Hm kept; subst kept.
  assert (E : extract r (Some m)
              = trim (renderLines
                        (firstn (length (content r) - Z.to_nat (- m))
                           (content r)))).
  { rewrite extract_spec, clampIndex_neg by exact Hm. reflexivity. }
  split; [exact E|split].
  - exists (skipn (length (content r) - Z.to_nat (- m)) (content r)).
    rewrite firstn_skipn, length_skipn. split; [reflexivity | lia].
  - rewrite E; split.
    + intros H.
      destruct (Nat.le_gt_cases (length (content r)) (Z.to_nat (- m)))
        as [Hle | Hgt]; [exact Hle|].
      exfalso; revert H; apply trim_renderLines_not_nil.
      intros H0; apply (f_equal (@length jsstring)) in H0.
      rewrite length_firstn in H0; simpl in H0; lia.
    + intros Hle.
      replace (length (content r) - Z.to_nat (- m)) with 0 by lia.
      reflexivity.
Qed.

(** *** Numbers that are not integers *)

Lemma extractNumber_Int (r : FileBlock) (x : number) (e : Z) :
  toIntegerOrInfinity x = Int e ->
  extractNumber r (Some x) = extract r (Some e).
Proof.
  intros E. unfold extractNumber, snippetOfNumber, sliceNumber.
  rewrite E. reflexivity.
Qed.

Lemma quot_of_negative (n : Z) (d : positive) (k : Z) :
  (0 <= k)%Z ->
  (k * Z.pos d <= - n)%Z -> (- n < (k + 1) * Z.pos d)%Z ->
  Z.quot n (Z.pos d) = (- k)%Z.
Proof.
  intros Hk H1 H2.
  replace n with (- (- n))%Z by lia.
  rewrite Z.quot_opp_l by lia. f_equal.
  rewrite Z.quot_div_nonneg by lia.
  symmetry.
  apply (Z.div_unique (- n) (Z.pos d) k (- n - k * Z.pos d)); lia.
Qed.

Lemma truncate_negative (q : QArith_base.Q) (k : Z) :
  (0 <= k)%Z ->
  QArith_base.Qle (QArith_base.inject_Z k) (QArith_base.Qopp q) ->
  QArith_base.Qlt (QArith_base.Qopp q) (QArith_base.inject_Z (k + 1)) ->
  toIntegerOrInfinity (Finite q) = Int (- k).
Proof.
  destruct q as [n d].
  unfold QArith_base.Qle, QArith_base.Qlt, QArith_base.inject_Z,
    QArith_base.Qopp; simpl.
  intros Hk H1 H2. f_equal. apply quot_of_negative; lia.
Qed.

(** C10, as the code has it.  A negative [maxLines] goes to [slice] as it
    is, and nothing fails.  From -1 down, the slice keeps the content
    without its last [k] lines, [k] being the whole part of [|maxLines|],
    and the body numbers the lines kept from 1; the body is empty exactly
    when no line is kept, that is when the content has [k] lines at most.
    Between -1 and 0 the bound is cut to 0, and for [-Infinity] it is 0:
    the body is empty.  On the integers the extraction is the one of the
    other properties. *)
Theorem negative_maxLines_as_slice :
  (forall r q k,
     content r <> [] -> (1 <= k)%Z ->
     QArith_base.Qle (QArith_base.inject_Z k) (QArith_base.Qopp q) ->
     QArith_base.Qlt (QArith_base.Qopp q) (QArith_base.inject_Z (k + 1)) ->
     let kept :=
       firstn (length (content r) - Z.to_nat k) (content r) in
     extractNumber r (Some (Finite q)) = trim (renderLines kept) /\
     (exists dropped,
        content r = kept ++ dropped /\
        length dropped = Nat.min (Z.to_nat k) (length (content r))) /\
     (extractNumber r (Some (Finite q)) = [] <->
      length (content r) <= Z.to_nat k)) /\
  (forall r q,
     QArith_base.Qlt q (QArith_base.inject_Z 0) ->
     QArith_base.Qlt (QArith_base.inject_Z (-1)) q ->
     extractNumber r (Some (Finite q)) = []) /\
  (forall r, extractNumber r (Some MinusInfinity) = []) /\
  (forall r m,
     extractNumber r (Some (Finite (QArith_base.inject_Z m)))
       = extract r (Some m)).
Proof.
  split; [|split; [|split]].
  - intros r q k Hne Hk H1 H2 kept; subst kept.
    rewrite (extractNumber_Int r (Finite q) (- k)
               (truncate_negative q k ltac:(lia) H1 H2)).
    pose proof (extract_negative_integer r (- k) Hne ltac:(lia)) as H.
    rewrite Z.opp_involutive in H. exact H.
  - intros r q H0 H1.
    assert (E : toIntegerOrInfinity (Finite q) = Int 0).
    { destruct q as [n d].
      unfold QArith_base.Qlt, QArith_base.inject_Z in H0, H1;
        simpl in H0, H1.
      apply (truncate_negative (QArith_base.Qmake n d) 0); [lia| |];
        unfold QArith_base.Qle, QArith_base.Qlt, QArith_base.inject_Z,
          QArith_base.Qopp; simpl; lia. }
    rewrite (extractNumber_Int r (Finite q) 0 E), extract_spec.
    reflexivity.
  - intros r. unfold extractNumber, snippetOfNumber, sliceNumber; simpl.
    change (slice (content r) 0 (Some 0%Z)) with (@nil jsstring).
    reflexivity.
  - intros r m. apply extractNumber_Int. simpl.
    rewrite Z.quot_1_r. reflexivity.
Qed.

Lemma negative_maxLines_as_slice_witness :
  extractNumber
    {| path := lit "a.ts"; content := [lit "x"; lit "y"; lit "z"] |}
    (Some (Finite (QArith_base.Qmake (-3) 2)))
    = lit "1: x" ++ LF :: lit " 2: y" /\
  extractNumber
    {| path := lit "a.ts"; content := [lit "x"; lit "y"; lit "z"] |}
    (Some (Finite (QArith_base.Qmake (-1) 2))) = [].
Proof.
  split.
  - apply (proj1 (proj1 negative_maxLines_as_slice
                    {| path := lit "a.ts";
                       content := [lit "x"; lit "y"; lit "z"] |}
                    (QArith_base.Qmake (-3) 2) 1%Z
                    ltac:(discriminate) ltac:(lia)
                    ltac:(vm_compute; discriminate)
                    ltac:(vm_compute; reflexivity))).
  - apply (proj1 (proj2 negative_maxLines_as_slice)
             {| path := lit "a.ts";
                content := [lit "x"; lit "y"; lit "z"] |}
             (QArith_base.Qmake (-1) 2));
      vm_compute; reflexivity.
Defined.

(** C10, as it is stated, fails: a record with content and a negative
    [maxLines] may well give an empty body.  With -1 the one line of a file
    is dropped, and with -1/2 all the lines are, not half a line. *)
Lemma negative_maxLines_empty_body :
  ~ (forall r x,
       content r <> [] -> isNegative x -> extractNumber r (Some x) <> []) /\
  extractNumber {| path := lit "a.ts"; content := [lit "x"] |}
    (Some (Finite (QArith_base.inject_Z (-1)))) = [] /\
  extractNumber {| path := lit "a.ts"; content := [lit "x"; lit "y"] |}
    (Some (Finite (QArith_base.Qmake (-1) 2))) = [].
Proof.
  split; [|split; reflexivity].
  intros H.
  apply (H {| path := lit "a.ts"; content := [lit "x"] |}
           (Finite (QArith_base.inject_Z (-1)))).
  - discriminate.
  - reflexivity.
  - reflexivity.
Qed.

(** ** Normalisation and lookup *)

Lemma trimEnd_cons_keep (c : char) (t : jsstring) :
  isWhiteSpace c = false -> trimEnd (c :: t) = c :: trimEnd t.
Proof.
  intros Hc. destruct (trimEnd t) as [|d u] eqn:E.
  - destruct (trimEnd_decompose t) as [w [Et Hw]].
    rewrite E in Et; simpl in Et; subst w.
    change (c :: t) with ([c] ++ t).
    rewrite trimEnd_app_spaces by exact Hw.
    apply (trimEnd_snoc [] c Hc).
  - rewrite <- E. apply (trimEnd_app_keep [c] t). rewrite E; discriminate.
Qed.

Lemma trim_idem (s : jsstring) : trim (trim s) = trim s.
Proof.
  unfold trim. destruct (trimStart s) as [|c t] eqn:E; [reflexivity|].
  assert (Hc : isWhiteSpace c = false) by exact (dropWhile_head _ _ _ _ E).
  rewrite (trimEnd_cons_keep c t Hc).
  rewrite (trimStart_cons c (trimEnd t) Hc).
  rewrite (trimEnd_cons_keep c (trimEnd t) Hc), trimEnd_idem; reflexivity.
Qed.

Lemma trim_incl (s : jsstring) (c : char) : In c (trim s) -> In c s.
Proof.
  intros H. apply trimEnd_incl in H. unfold trimStart in H.
  destruct (dropWhile_decompose isWhiteSpace s) as [ws [E _]].
  rewrite E; apply in_or_app; right; exact H.
Qed.

Lemma replaceBackslashes_clean (s : jsstring) :
  ~ In BACKSLASH (replaceBackslashes s).
Proof.
  unfold replaceBackslashes; intros H.
  apply in_map_iff in H as [c [E _]].
  destruct (N.eqb_spec c BACKSLASH); [discriminate | congruence].
Qed.

Lemma find_Some_first {A : Type} (p : A -> bool) (l : list A) (x : A) :
  find p l = Some x <-> firstWith (fun y => p y = true) l x.
Proof.
  split.
  - induction l as [|y l IH]; simpl; [discriminate|].
    destruct (p y) eqn:Hy.
    + intros H; injection H as ->.
      exists [], l; repeat split; auto.
    + intros H. destruct (IH H) as (before & after & -> & Hx & Hb).
      exists (y :: before), after; repeat split; auto.
      intros z [<- | Hz]; [congruence | auto].
  - intros (before & after & -> & Hx & Hb).
    induction before as [|y before IH]; simpl.
    + rewrite Hx; reflexivity.
    + destruct (p y) eqn:Hy.
      * exfalso; apply (Hb y); [left; reflexivity | exact Hy].
      * apply IH. intros z Hz; apply Hb; right; exact Hz.
Qed.

Lemma find_None_iff {A : Type} (p : A -> bool) (l : list A) :
  find p l = None <-> forall y, In y l -> p y <> true.
Proof.
  induction l as [|y l IH]; simpl.
  - split; [intros _ z [] | reflexivity].
  - destruct (p y) eqn:Hy; split.
    + discriminate.
    + intros H; exfalso; apply (H y); auto.
    + intros H z [<- | Hz]; [congruence | apply IH; assumption].
    + intros H; apply IH; intros z Hz; apply H; auto.
Qed.

Lemma firstWith_ext {A : Type} (P Q : A -> Prop) (l : list A) (x : A) :
  (forall y, P y <-> Q y) -> firstWith P l x -> firstWith Q l x.
Proof.
  intros H (before & after & E & Hx & Hb).
  exists before, after; repeat split; auto.
  - apply H; exact Hx.
  - intros y Hy HQ; apply (Hb y Hy), H, HQ.
Qed.

(** C4.  Normalisation removes one leading ["./"], then turns every
    backslash into a slash, then trims; what it returns has no backslash
    and no white space around it.  The lookup answers the first record, in
    the order of the dump, whose normalised path equals the normalised
    request; only when no record does, the first whose lower-cased
    normalised path equals the lower-cased normalised request; and nothing,
    which is a plain result, exactly when no record matches in the second
    sense. *)
Theorem find_two_passes :
  (forall p,
     normalizePath ([DOT; SLASH] ++ p) = trim (replaceBackslashes p) /\
     (startsWith p [DOT; SLASH] = false ->
      normalizePath p = trim (replaceBackslashes p)) /\
     ~ In BACKSLASH (normalizePath p) /\
     trim (normalizePath p) = normalizePath p) /\
  (forall toLowerCase blocks file r,
     findBlock toLowerCase blocks file = Some r <->
     firstWith (exactMatch file) blocks r \/
     ((forall f, In f blocks -> ~ exactMatch file f) /\
      firstWith (looseMatch toLowerCase file) blocks r)) /\
  (forall toLowerCase blocks file,
     findBlock toLowerCase blocks file = None <->
     forall f, In f blocks -> ~ looseMatch toLowerCase file f).
Proof.
  split; [|split].
  - intros p; split; [|split; [|split]].
    + reflexivity.
    + unfold normalizePath, stripDotSlash, startsWith.
      destruct (stripPrefix [DOT; SLASH] p); [discriminate | reflexivity].
    + intros H; apply trim_incl in H.
      exact (replaceBackslashes_clean _ H).
    + apply trim_idem.
  - intros toLowerCase blocks file r. unfold findBlock.
    set (exact := fun f => eqb (normalizePath (path f)) (normalizePath file)).
    set (loose := fun f => eqb (toLowerCase (normalizePath (path f)))
                               (toLowerCase (normalizePath file))).
    assert (Hexact : forall f, exact f = true <-> exactMatch file f)
      by (intros f; apply eqb_eq).
    assert (Hloose : forall f, loose f = true <-> looseMatch toLowerCase file f)
      by (intros f; apply eqb_eq).
    destruct (find exact blocks) as [found|] eqn:E.
    + apply find_Some_first in E.
      apply (firstWith_ext _ _ _ _ Hexact) in E. split.
      * intros H; injection H as <-; left; exact E.
      * intros [H | [Hno _]].
        -- destruct E as (b1 & a1 & E1 & Hx1 & Hb1).
           destruct H as (b2 & a2 & E2 & Hx2 & Hb2).
           f_equal. rewrite E1 in E2. clear E1.
           revert b2 E2 Hb2; induction b1 as [|y b1 IH]; intros b2 E2 Hb2.
           ++ destruct b2 as [|z b2]; simpl in E2; [congruence|].
              injection E2 as <- _. exfalso; apply (Hb2 found); simpl; auto.
           ++ destruct b2 as [|z b2]; simpl in E2.
              ** injection E2 as -> _. exfalso; apply (Hb1 r); simpl; auto.
              ** injection E2 as <- E2.
                 apply (IH (fun w Hw => Hb1 w (or_intror Hw)) b2 E2).
                 intros w Hw; apply Hb2; right; exact Hw.
        -- destruct E as (b1 & a1 & -> & Hx1 & _).
           exfalso; apply (Hno found); [|exact Hx1].
           apply in_or_app; right; left; reflexivity.
    + pose proof (proj1 (find_None_iff exact blocks) E) as Hno.
      rewrite find_Some_first. split.
      * intros H; right; split.
        -- intros f Hf Hm; apply (Hno f Hf), Hexact, Hm.
        -- exact (firstWith_ext _ _ _ _ Hloose H).
      * intros [H | [_ H]].
        -- destruct H as (b & a & -> & Hx & _).
           exfalso; apply (Hno r); [|apply Hexact; exact Hx].
           apply in_or_app; right; left; reflexivity.
        -- apply (firstWith_ext _ _ blocks r (fun y => iff_sym (Hloose y))).
           exact H.
  - intros toLowerCase blocks file. unfold findBlock.
    set (exact := fun f => eqb (normalizePath (path f)) (normalizePath file)).
    set (loose := fun f => eqb (toLowerCase (normalizePath (path f)))
                               (toLowerCase (normalizePath file))).
    destruct (find exact blocks) as [found|] eqn:E.
    + split; [discriminate|]. intros H; exfalso.
      apply find_Some_first in E. destruct E as (b & a & -> & Hx & _).
      apply (H found); [apply in_or_app; right; left; reflexivity|].
      unfold looseMatch. apply eqb_eq in Hx. rewrite Hx; reflexivity.
    + rewrite find_None_iff. split; intros H f Hf Hm; apply (H f Hf).
      * apply eqb_eq; exact Hm.
      * apply eqb_eq in Hm; exact Hm.
Qed.

(** ** The summary block *)

Lemma occursAt_0 (pat s : jsstring) :
  occursAt pat s 0 <-> startsWith s pat = true.
Proof.
  rewrite startsWith_iff; split.
  - intros (before & after & -> & Hl).
    destruct before; [|discriminate]. exists after; reflexivity.
  - intros [r ->]. exists [], r; split; reflexivity.
Qed.

Lemma occursAt_S (pat s : jsstring) (c : char) (i : nat) :
  occursAt pat (c :: s) (S i) <-> occursAt pat s i.
Proof.
  split.
  - intros (before & after & E & Hl).
    destruct before as [|d before]; [discriminate|].
    simpl in E, Hl. injection E as -> ->. injection Hl as Hl.
    exists before, after; split; [reflexivity | exact Hl].
  - intros (before & after & -> & Hl).
    exists (c :: before), after; split; [reflexivity | simpl; congruence].
Qed.

Lemma occursAt_nil_S (pat : jsstring) (i : nat) : ~ occursAt pat [] (S i).
Proof.
  intros (before & after & E & Hl).
  destruct before; discriminate.
Qed.

Lemma occursAt_bound (pat s : jsstring) (i : nat) :
  occursAt pat s i -> i <= length s.
Proof.
  intros (before & after & -> & <-). rewrite length_app; lia.
Qed.

Lemma markerAt_0 (s : jsstring) :
  markerAt s 0 <->
  startsWith s packSummary = true \/ startsWith s totalFiles = true.
Proof. unfold markerAt; rewrite !occursAt_0; reflexivity. Qed.

Lemma markerAt_S (s : jsstring) (c : char) (i : nat) :
  markerAt (c :: s) (S i) <-> markerAt s i.
Proof. unfold markerAt; rewrite !occursAt_S; reflexivity. Qed.

Lemma indexOfFrom_first (pat s : jsstring) (i : nat) (k : Z) :
  occursAt pat s i -> (forall j, j < i -> ~ occursAt pat s j) ->
  indexOfFrom k s pat = (k + Z.of_nat i)%Z.
Proof.
  revert s k; induction i as [|i IH]; intros s k Hi Hmin.
  - apply occursAt_0 in Hi.
    destruct s; simpl; rewrite Hi; lia.
  - destruct s as [|c s]; [exfalso; exact (occursAt_nil_S _ _ Hi)|].
    simpl. destruct (startsWith (c :: s) pat) eqn:E.
    + exfalso; apply (Hmin 0); [lia | apply occursAt_0; exact E].
    + rewrite (IH s (k + 1)%Z).
      * lia.
      * apply (occursAt_S pat s c i); exact Hi.
      * intros j Hj Hocc; apply (Hmin (S j)); [lia|].
        apply occursAt_S; exact Hocc.
Qed.

Lemma summaryMatch_marker (s m : jsstring) :
  summaryMatch s = Some m -> m = packSummary \/ m = totalFiles.
Proof.
  induction s as [|c s IH].
  - discriminate.
  - simpl. destruct (startsWith (c :: s) packSummary).
    { intros H; injection H as <-; left; reflexivity. }
    destruct (startsWith (c :: s) totalFiles).
    { intros H; injection H as <-; right; reflexivity. }
    exact IH.
Qed.

Lemma summaryMatch_Some (s m : jsstring) :
  summaryMatch s = Some m ->
  exists i,
    occursAt m s i /\ markerAt s i /\ (forall j, j < i -> ~ markerAt s j).
Proof.
  revert m; induction s as [|c s IH]; intros m; simpl.
  - destruct (startsWith [] packSummary) eqn:E1; [discriminate E1|].
    destruct (startsWith [] totalFiles) eqn:E2; discriminate.
  - destruct (startsWith (c :: s) packSummary) eqn:E1.
    { intros H; injection H as <-. exists 0; repeat split.
      - apply occursAt_0; exact E1.
      - apply markerAt_0; left; exact E1.
      - intros j Hj; lia. }
    destruct (startsWith (c :: s) totalFiles) eqn:E2.
    { intros H; injection H as <-. exists 0; repeat split.
      - apply occursAt_0; exact E2.
      - apply markerAt_0; right; exact E2.
      - intros j Hj; lia. }
    intros H. destruct (IH m H) as (i & Hocc & Hmark & Hmin).
    exists (S i); repeat split.
    + apply occursAt_S; exact Hocc.
    + apply markerAt_S; exact Hmark.
    + intros [|j] Hj.
      * rewrite markerAt_0, E1, E2. intros [?|?]; discriminate.
      * rewrite markerAt_S. apply Hmin; lia.
Qed.

Lemma summaryMatch_None (s : jsstring) :
  summaryMatch s = None -> forall i, ~ markerAt s i.
Proof.
  induction s as [|c s IH]; simpl.
  - intros _ [|i] [H | H].
    + apply occursAt_0 in H; discriminate H.
    + apply occursAt_0 in H; discriminate H.
    + exact (occursAt_nil_S _ _ H).
    + exact (occursAt_nil_S _ _ H).
  - destruct (startsWith (c :: s) packSummary) eqn:E1; [discriminate|].
    destruct (startsWith (c :: s) totalFiles) eqn:E2; [discriminate|].
    intros H [|i].
    + rewrite markerAt_0, E1, E2. intros [?|?]; discriminate.
    + rewrite markerAt_S. apply IH; exact H.
Qed.

Lemma slice_to_end {A : Type} (l : list A) (i : nat) :
  i <= length l -> slice l (Z.of_nat i) None = skipn i l.
Proof.
  intros Hi. unfold slice.
  rewrite clampIndex_nonneg by lia.
  replace (Nat.min (Z.to_nat (Z.of_nat i)) (length l)) with i by lia.
  apply firstn_all2. rewrite length_skipn; lia.
Qed.

Lemma slice_last {A : Type} (l : list A) (n : nat) :
  0 < n -> slice l (- Z.of_nat n) None = lastLines n l.
Proof.
  intros Hn. unfold slice, lastLines.
  rewrite clampIndex_neg by lia.
  replace (Z.to_nat (- - Z.of_nat n)) with n by lia.
  apply firstn_all2. rewrite length_skipn; lia.
Qed.

Lemma filterBanners_trimmed (toLowerCase : jsstring -> jsstring)
  (output : jsstring) :
  trim (filterBanners toLowerCase output) = filterBanners toLowerCase output.
Proof. apply trim_idem. Qed.

(** C7.  Let [filtered] be the report after the banner lines are dropped.
    If one of ["Pack Summary:"] and ["Total Files:"] occurs in it, the
    summary is the text from the first index where one of them stands to
    the end, trimmed; if none occurs, the summary is the last 20 lines of
    [filtered] (all of them when there are fewer), joined by line breaks. *)
Theorem summary_block_spec :
  forall toLowerCase output,
    let filtered := filterBanners toLowerCase output in
    (forall k,
       markerAt filtered k ->
       exists i,
         i <= k /\ markerAt filtered i /\
         (forall j, j < i -> ~ markerAt filtered j) /\
         summaryBlock filtered = trim (skipn i filtered)) /\
    ((forall k, ~ markerAt filtered k) ->
     summaryBlock filtered = join [LF] (lastLines 20 (split LF filtered))).
Proof.
  intros toLowerCase output filtered. split.
  - intros k Hk. unfold summaryBlock.
    destruct (summaryMatch filtered) as [m|] eqn:E.
    + destruct (summaryMatch_Some _ _ E) as (i & Hocc & Hmark & Hmin).
      exists i; repeat split; auto.
      * destruct (Nat.le_gt_cases i k) as [Hle | Hgt]; [exact Hle|].
        exfalso; exact (Hmin k Hgt Hk).
      * assert (Hfirst : forall j, j < i -> ~ occursAt m filtered j).
        { intros j Hj Hoj. apply (Hmin j Hj).
          pose proof (summaryMatch_marker _ _ E) as Hm.
          destruct Hm as [-> | ->]; [left | right]; exact Hoj. }
        unfold indexOf.
        rewrite (indexOfFrom_first m filtered i 0 Hocc Hfirst).
        rewrite Z.add_0_l, slice_to_end; [reflexivity|].
        exact (occursAt_bound _ _ _ Hocc).
    + exfalso; exact (summaryMatch_None _ E k Hk).
  - intros Hnone. unfold summaryBlock.
    destruct (summaryMatch filtered) as [m|] eqn:E.
    + destruct (summaryMatch_Some _ _ E) as (i & _ & Hmark & _).
      exfalso; exact (Hnone i Hmark).
    + unfold filtered at 1. rewrite filterBanners_trimmed. fold filtered.
      apply (f_equal (join [LF])).
      exact (slice_last (split LF filtered) 20 ltac:(lia)).
Qed.

Lemma summary_block_spec_witness :
  (exists i,
     i <= 26 /\
     summaryBlock (filterBanners asciiLower reportWithSummary)
       = trim (skipn i (filterBanners asciiLower reportWithSummary))) /\
  summaryBlock (filterBanners asciiLower reportWithoutMarkers)
    = lit "one" ++ LF :: lit "two".
Proof.
  split.
  - destruct (proj1 (summary_block_spec asciiLower reportWithSummary) 26)
      as (i & Hi & _ & _ & E).
    + right.
      exists (firstn 26 (filterBanners asciiLower reportWithSummary)),
             (skipn 38 (filterBanners asciiLower reportWithSummary)).
      split; reflexivity.
    + exists i; split; [exact Hi | exact E].
  - apply (proj2 (summary_block_spec asciiLower reportWithoutMarkers)).
    apply summaryMatch_None. reflexivity.
Defined.

(** ** The ignore file *)

Lemma isPattern_blankOrComment (line : jsstring) :
  blankOrComment line -> isPattern (trim line) = false.
Proof.
  unfold isPattern, trim, trimStart.
  intros [Hb | (ws & rest & -> & Hws)].
  - rewrite (dropWhile_all _ _ Hb); reflexivity.
  - rewrite (dropWhile_app_false isWhiteSpace ws HASH rest eq_refl Hws).
    rewrite (trimEnd_cons_keep HASH rest eq_refl). reflexivity.
Qed.

Lemma filter_none {A : Type} (p : A -> bool) (l : list A) :
  Forall (fun x => p x = false) l -> filter p l = [].
Proof.
  induction 1 as [|x l Hx _ IH]; simpl; [reflexivity|].
  rewrite Hx; exact IH.
Qed.

Lemma join_head_not_nil (sep l : jsstring) (a : list jsstring) :
  l <> [] -> join sep (l :: a) <> [].
Proof.
  intros Hl. destruct a; simpl; [exact Hl|].
  destruct l; [congruence | discriminate].
Qed.

Lemma isPattern_not_nil (line : jsstring) :
  isPattern line = true -> line <> [].
Proof. intros H ->; discriminate H. Qed.

(** C9.  The loader never answers the empty string.  When the ignore file
    does not exist it answers nothing, and so it does when every line of
    the file is blank or a comment, where joining the patterns would give
    the empty string. *)
Theorem ignore_loader_never_empty :
  forall pathJoin fs dir,
    let ignorePath := pathJoin dir (lit ".codebaseignore") in
    getCodebaseIgnoreGlobs pathJoin fs dir <> Normal (Some []) /\
    (existsSync fs ignorePath = false ->
     getCodebaseIgnoreGlobs pathJoin fs dir = Normal None) /\
    (forall text,
       existsSync fs ignorePath = true ->
       readFileSync fs ignorePath = Normal text ->
       Forall blankOrComment (split LF text) ->
       getCodebaseIgnoreGlobs pathJoin fs dir = Normal None).
Proof.
  intros pathJoin fs dir ignorePath. unfold getCodebaseIgnoreGlobs.
  fold ignorePath. split; [|split].
  - destruct (existsSync fs ignorePath); simpl; [|discriminate].
    destruct (readFileSync fs ignorePath) as [text|e]; simpl; [|discriminate].
    destruct (filter isPattern (map trim (split LF text))) as [|l a] eqn:E;
      simpl Nat.eqb; cbv iota; [discriminate|].
    intros H; injection H as H.
    apply (join_head_not_nil [COMMA] l a); [|exact H].
    apply isPattern_not_nil.
    assert (Hin : In l (filter isPattern (map trim (split LF text))))
      by (rewrite E; left; reflexivity).
    apply filter_In in Hin; tauto.
  - intros ->; reflexivity.
  - intros text -> -> Hall; simpl.
    rewrite filter_none; [reflexivity|].
    apply Forall_map. eapply Forall_impl; [|exact Hall].
    intros line; apply isPattern_blankOrComment.
Qed.

Lemma ignore_loader_never_empty_witness :
  getCodebaseIgnoreGlobs sampleJoin sampleFs (lit "elsewhere") = Normal None /\
  getCodebaseIgnoreGlobs sampleJoin sampleFs (lit "proj") = Normal None.
Proof.
  split.
  - apply (proj1 (proj2 (ignore_loader_never_empty sampleJoin sampleFs
                           (lit "elsewhere")))).
    reflexivity.
  - apply (proj2 (proj2 (ignore_loader_never_empty sampleJoin sampleFs
                           (lit "proj")))
             (join [LF] [lit "# build output"; lit "   "; lit " #x"; lit ""])).
    + reflexivity.
    + reflexivity.
    + apply Forall_cons;
        [right; exists [], (lit " build output"); split; reflexivity|].
      apply Forall_cons; [left; reflexivity|].
      apply Forall_cons;
        [right; exists [SPACE], (lit "x"); split; reflexivity|].
      apply Forall_cons; [left; reflexivity | apply Forall_nil].
Defined.

(** ** The operation [searchCodebase] *)

(** C8.  Whatever the file system and the parameters, [searchCodebase]
    completes normally with one text and throws nothing.  In the order of
    the handler: a codebase file that does not exist gives the message that
    names it; otherwise a [file] parameter left out or empty gives the
    message that it is required; otherwise an exception of the read is
    turned into the text of the error; otherwise a path that no record
    matches gives the message that the file is not found, and a matching
    record gives its excerpt between the tags. *)
Theorem searchCodebase_always_answers :
  forall toLowerCase fs file codebase maxLines,
    let codebaseFile := codebaseFileOf codebase in
    let answer := searchCodebase toLowerCase fs file codebase maxLines in
    (exists text, answer = Normal [text]) /\
    (existsSync fs codebaseFile = false ->
     answer = Normal [lit "Codebase file not found: " ++ codebaseFile]) /\
    (existsSync fs codebaseFile = true -> fileMissing file ->
     answer = Normal [lit "Parameter 'file' is required."]) /\
    (forall f e,
       existsSync fs codebaseFile = true -> file = Some f -> f <> [] ->
       readFileSync fs codebaseFile = Throw e ->
       answer = Normal [lit "Error while extracting file: " ++ errorText e]) /\
    (forall f raw,
       existsSync fs codebaseFile = true -> file = Some f -> f <> [] ->
       readFileSync fs codebaseFile = Normal raw ->
       match findBlock toLowerCase (parse raw) f with
       | None =>
           answer = Normal [lit "File " ++ DQUOTE :: f ++ DQUOTE
                              :: lit " not found in codebase."]
       | Some found =>
           answer = Normal [xmlOpen ++ path found ++ xmlOpenEnd ++ LF
                              :: extract found maxLines ++ LF :: xmlClose]
       end).
Proof.
  intros toLowerCase fs file codebase maxLines codebaseFile answer.
  subst answer. unfold searchCodebase.
  change (match codebase with
          | Some (c :: cs) => c :: cs
          | _ => defaultCodebase
          end) with codebaseFile.
  destruct (existsSync fs codebaseFile) eqn:Ex; simpl negb; cbv iota.
  - destruct file as [[|c cs]|].
    + simpl. repeat split; try discriminate; eauto.
      * intros f e _ H; injection H as <-; congruence.
      * intros f raw _ H; injection H as <-; congruence.
    + destruct (readFileSync fs codebaseFile) as [raw|e] eqn:Er.
      * simpl bind.
        destruct (findBlock toLowerCase (parse raw) (c :: cs)) as [found|]
          eqn:Ef; simpl tryCatch;
          (split; [eexists; reflexivity|]);
          (split; [discriminate|]);
          (split; [intros _ [H | H]; discriminate H|]);
          (split; [intros f e _ _ _ H; discriminate H|]);
          intros f raw' _ Hf _ Hr; injection Hf as <-; injection Hr as <-;
          rewrite Ef; reflexivity.
      * simpl.
        (split; [eexists; reflexivity|]);
        (split; [discriminate|]);
        (split; [intros _ [H | H]; discriminate H|]);
        (split; [intros f e' _ _ _ H; injection H as <-; reflexivity|]).
        intros f raw _ _ _ H; discriminate H.
    + simpl. repeat split; try discriminate; eauto.
  - simpl. repeat split; try discriminate; eauto.
Qed.

Lemma searchCodebase_always_answers_witness :
  searchCodebase asciiLower sampleFs (Some (lit "src/a.ts"))
    (Some (lit "missing.codebase")) None
    = Normal [lit "Codebase file not found: missing.codebase"] /\
  searchCodebase asciiLower sampleFs (Some []) None None
    = Normal [lit "Parameter 'file' is required."] /\
  searchCodebase asciiLower sampleFs (Some (lit "src/a.ts"))
    (Some (lit "locked.codebase")) None
    = Normal [lit "Error while extracting file: EACCES: permission denied"] /\
  searchCodebase asciiLower sampleFs (Some (lit "src/b.ts")) None None
    = Normal [lit "File " ++ DQUOTE :: lit "src/b.ts" ++ DQUOTE
                :: lit " not found in codebase."].
Proof.
  split; [|split; [|split]].
  - apply (proj1 (proj2 (searchCodebase_always_answers asciiLower sampleFs
                           (Some (lit "src/a.ts"))
                           (Some (lit "missing.codebase")) None))).
    reflexivity.
  - apply (proj1 (proj2 (proj2 (searchCodebase_always_answers asciiLower
                                  sampleFs (Some []) None None)))).
    + reflexivity.
    + right; reflexivity.
  - apply (proj1 (proj2 (proj2 (proj2
             (searchCodebase_always_answers asciiLower sampleFs
                (Some (lit "src/a.ts")) (Some (lit "locked.codebase"))
                None))))
             (lit "src/a.ts")
             (ErrorObject (lit "EACCES: permission denied"))).
    + reflexivity.
    + reflexivity.
    + discriminate.
    + reflexivity.
  - exact (proj2 (proj2 (proj2 (proj2
             (searchCodebase_always_answers asciiLower sampleFs
                (Some (lit "src/b.ts")) None None))))
             (lit "src/b.ts") mixDump eq_refl eq_refl
             ltac:(discriminate) eq_refl).
Defined.

Lemma find_two_passes_witness :
  normalizePath (lit " src\cli.ts ") = lit "src/cli.ts" /\
  findBlock asciiLower (parse mixDump) (lit "./docs\b.md")
    = Some {| path := lit "docs/B.md"; content := [lit "hello"; lit ""] |}.
Proof.
  split.
  - exact (proj1 (proj2 (proj1 find_two_passes (lit " src\cli.ts ")))
             eq_refl).
  - apply (proj2 (proj1 (proj2 find_two_passes) asciiLower (parse mixDump)
                    (lit "./docs\b.md")
                    {| path := lit "docs/B.md";
                       content := [lit "hello"; lit ""] |})).
    right; split.
    + intros f [<- | [<- | []]]; discriminate.
    + exists [ {| path := lit "src/a.ts";
                  content := [lit "const a = 1;"; lit "# File list"] |} ], [].
      split; [reflexivity | split; [reflexivity|]].
      intros y [<- | []]; discriminate.
Defined.

(** * More of the engine *)

(** ** The index as a function of the lines *)

Lemma split_app (sep : char) (a b : jsstring) :
  split sep (a ++ sep :: b) = split sep a ++ split sep b.
Proof.
  induction a as [|c a IH]; simpl.
  - rewrite N.eqb_refl; reflexivity.
  - destruct (N.eqb c sep); [rewrite IH; reflexivity|].
    rewrite IH. pose proof (split_not_nil sep a) as Hne.
    destruct (split sep a); [congruence | reflexivity].
Qed.

Lemma length_announcedPaths (ls : list jsstring) :
  length (announcedPaths ls) = length (filter isOpening ls).
Proof.
  unfold announcedPaths, isOpening.
  induction ls as [|l ls IH]; [reflexivity|]. simpl.
  destruct (opening l); simpl; rewrite IH; reflexivity.
Qed.

Lemma filter_nil_iff {A : Type} (p : A -> bool) (l : list A) :
  filter p l = [] <-> Forall (fun x => p x = false) l.
Proof.
  split; [|apply filter_none].
  induction l as [|x l IH]; simpl; [constructor|].
  destruct (p x) eqn:E; [discriminate|]. auto.
Qed.

(** X1.  The index has one record for each opening line of the dump, and
    no other: it is empty exactly when no line opens a record, as for the
    empty dump, whatever closing tags and other lines there are. *)
Theorem one_record_per_opening_line :
  forall raw,
    length (parse raw) = length (filter isOpening (split LF raw)) /\
    (parse raw = [] <->
     Forall (fun l => isOpening l = false) (split LF raw)).
Proof.
  intros raw.
  assert (E : length (parse raw) = length (filter isOpening (split LF raw))).
  { rewrite <- length_announcedPaths.
    unfold parse. rewrite <- (length_map path), paths_tokLines.
    reflexivity. }
  split; [exact E|]. rewrite <- filter_nil_iff. split.
  - intros H; rewrite H in E; simpl in E.
    destruct (filter isOpening (split LF raw)); [reflexivity | discriminate].
  - intros H; rewrite H in E; simpl in E.
    destruct (parse raw); [reflexivity | discriminate].
Qed.

Lemma tokLines_no_opening (pre : list jsstring) :
  Forall (fun l => isOpening l = false) pre ->
  tokLines pre tokInit = tokInit.
Proof.
  induction pre as [|l pre IH]; intros H; [reflexivity|].
  inversion H as [|? ? Hl Hpre]; subst.
  unfold tokLines in *; simpl fold_left.
  assert (E : tokStep tokInit l = tokInit).
  { destruct (isDelimiter l) eqn:D.
    - rewrite (tokStep_delimiter _ _ D). unfold openedBy.
      unfold isOpening in Hl. destruct (opening l); [discriminate|].
      reflexivity.
    - rewrite (tokStep_plain _ _ D). reflexivity. }
  rewrite E. apply IH; exact Hpre.
Qed.

(** X2.  What stands before the first opening line is dropped: a dump
    whose first part has no opening line has the index of the rest. *)
Theorem preamble_is_dropped :
  forall a b,
    Forall (fun l => isOpening l = false) (split LF a) ->
    parse (a ++ LF :: b) = parse b.
Proof.
  intros a b H. unfold parse.
  rewrite split_app, tokLines_app, (tokLines_no_opening _ H). reflexivity.
Qed.

Lemma preamble_is_dropped_witness :
  parse (lit "Files" ++ LF :: xmlClose ++ LF :: hashLine (lit "a.md"))
    = parse (hashLine (lit "a.md")).
Proof.
  apply (preamble_is_dropped (lit "Files" ++ LF :: xmlClose)
           (hashLine (lit "a.md"))).
  repeat constructor.
Defined.

Lemma pushCurrent_prefix (pre : list FileBlock) (cur : option FileBlock)
  (bs : list FileBlock) :
  pushCurrent {| currentFile := cur; fileBlocks := pre ++ bs |}
    = pre ++ pushCurrent {| currentFile := cur; fileBlocks := bs |}.
Proof.
  unfold pushCurrent; simpl. destruct cur; [|reflexivity].
  rewrite app_assoc; reflexivity.
Qed.

Lemma tokStep_prefix (pre : list FileBlock) (cur : option FileBlock)
  (bs : list FileBlock) (l : jsstring) :
  tokStep {| currentFile := cur; fileBlocks := pre ++ bs |} l
    = {| currentFile :=
           currentFile (tokStep {| currentFile := cur; fileBlocks := bs |} l);
         fileBlocks :=
           pre ++ fileBlocks
                    (tokStep {| currentFile := cur; fileBlocks := bs |} l) |}.
Proof.
  destruct (isDelimiter l) eqn:D.
  - rewrite !(tokStep_delimiter _ _ D); simpl.
    rewrite pushCurrent_prefix; reflexivity.
  - rewrite !(tokStep_plain _ _ D); simpl. destruct cur; reflexivity.
Qed.

Lemma tokLines_prefix (ls : list jsstring) (pre : list FileBlock)
  (cur : option FileBlock) (bs : list FileBlock) :
  tokLines ls {| currentFile := cur; fileBlocks := pre ++ bs |}
    = {| currentFile :=
           currentFile
             (tokLines ls {| currentFile := cur; fileBlocks := bs |});
         fileBlocks :=
           pre ++ fileBlocks
                    (tokLines ls {| currentFile := cur; fileBlocks := bs |})
      |}.
Proof.
  revert cur bs; induction ls as [|l ls IH]; intros cur bs.
  - reflexivity.
  - unfold tokLines in *; simpl fold_left.
    rewrite tokStep_prefix.
    destruct (tokStep {| currentFile := cur; fileBlocks := bs |} l)
      as [cur' bs']; simpl.
    apply IH.
Qed.

Lemma index_after_opening (st : TokState) (o : jsstring)
  (rest : list jsstring) :
  isDelimiter o = true ->
  pushCurrent (tokLines (o :: rest) st)
    = pushCurrent st ++ pushCurrent (tokLines (o :: rest) tokInit).
Proof.
  intros D. unfold tokLines; simpl fold_left.
  rewrite !(tokStep_delimiter _ _ D).
  change (pushCurrent tokInit) with (@nil FileBlock).
  fold (tokLines rest
          {| currentFile := openedBy o; fileBlocks := pushCurrent st |}).
  fold (tokLines rest {| currentFile := openedBy o; fileBlocks := [] |}).
  rewrite <- (app_nil_r (pushCurrent st)) at 1.
  rewrite tokLines_prefix.
  destruct (tokLines rest {| currentFile := openedBy o; fileBlocks := [] |})
    as [cur bs]; simpl.
  apply pushCurrent_prefix.
Qed.

(** X3.  Dumps compose: when the second of two dumps starts with an
    opening line, the index of the two, one after the other, is the index
    of the first followed by the index of the second. *)
Theorem index_of_concatenation :
  forall a b o rest,
    split LF b = o :: rest -> isOpening o = true ->
    parse (a ++ LF :: b) = parse a ++ parse b.
Proof.
  intros a b o rest E Ho. unfold parse.
  rewrite split_app, tokLines_app, E.
  apply index_after_opening.
  unfold isOpening in Ho. unfold isDelimiter.
  destruct (opening o); [reflexivity | discriminate].
Qed.

Lemma index_of_concatenation_witness :
  parse (mixDump ++ LF :: spaceDump) = parse mixDump ++ parse spaceDump.
Proof.
  apply (index_of_concatenation mixDump spaceDump (xmlLine (lit "a.ts"))
           [lit "foo "; xmlClose]).
  - reflexivity.
  - reflexivity.
Defined.

(** ** Lookup *)

Lemma findBlock_exact (toLowerCase : jsstring -> jsstring)
  (blocks : list FileBlock) (file : jsstring) (r : FileBlock) :
  firstWith (exactMatch file) blocks r ->
  findBlock toLowerCase blocks file = Some r.
Proof.
  intros H. unfold findBlock.
  assert (E : find (fun f => eqb (normalizePath (path f))
                                 (normalizePath file)) blocks = Some r).
  { apply find_Some_first. apply (firstWith_ext (exactMatch file)); [|exact H].
    intros y; symmetry; apply eqb_eq. }
  rewrite E; reflexivity.
Qed.

Lemma firstWith_exists {A : Type} (P : A -> Prop) (l : list A) :
  (forall x, P x \/ ~ P x) ->
  forall x, In x l -> P x -> exists y, firstWith P l y.
Proof.
  intros Hdec. induction l as [|z l IH]; intros x Hin Hx; [destruct Hin|].
  destruct Hin as [-> | Hin].
  - exists x, [], l; repeat split; auto.
  - destruct (Hdec z) as [Hz | Hz].
    + exists z, [], l; repeat split; auto.
    + destruct (IH x Hin Hx) as (y & before & after & -> & Hy & Hb).
      exists y, (z :: before), after; repeat split; auto.
      intros w [<- | Hw]; auto.
Qed.

Lemma firstWith_In {A : Type} (P : A -> Prop) (l : list A) (x : A) :
  firstWith P l x -> In x l /\ P x.
Proof.
  intros (before & after & -> & Hx & _); split; [|exact Hx].
  apply in_or_app; right; left; reflexivity.
Qed.

Lemma exactMatch_dec (file : jsstring) (f : FileBlock) :
  exactMatch file f \/ ~ exactMatch file f.
Proof.
  unfold exactMatch.
  destruct (eqb (normalizePath (path f)) (normalizePath file)) eqn:E.
  - left; apply eqb_eq; exact E.
  - right; apply eqb_neq; exact E.
Qed.

Lemma NoDup_map_first {A B : Type} (g : A -> B) (before after : list A)
  (x y : A) :
  NoDup (map g (before ++ x :: after)) ->
  In y (before ++ x :: after) -> g y = g x -> y = x.
Proof.
  induction before as [|z before IH]; simpl; intros Hnd Hin E.
  - inversion Hnd as [|? ? Hnot _]; subst.
    destruct Hin as [<- | Hin]; [reflexivity|].
    exfalso; apply Hnot. rewrite <- E. apply in_map; exact Hin.
  - inversion Hnd as [|? ? Hnot Hnd']; subst.
    destruct Hin as [<- | Hin]; [|exact (IH Hnd' Hin E)].
    exfalso; apply Hnot. rewrite E. apply in_map.
    apply in_or_app; right; left; reflexivity.
Qed.

(** X4.  Every record of the index is found under the path it is stored
    with: the lookup answers the first record of the index with the same
    normalised path, and the record itself when no two records have the
    same normalised path. *)
Theorem found_under_own_path :
  forall toLowerCase blocks r,
    In r blocks ->
    (exists r',
       findBlock toLowerCase blocks (path r) = Some r' /\
       firstWith (exactMatch (path r)) blocks r') /\
    (NoDup (map (fun f => normalizePath (path f)) blocks) ->
     findBlock toLowerCase blocks (path r) = Some r).
Proof.
  intros toLowerCase blocks r Hin.
  destruct (firstWith_exists (exactMatch (path r)) blocks
              (exactMatch_dec (path r)) r Hin eq_refl) as [r' Hr'].
  split.
  - exists r'; split; [apply findBlock_exact; exact Hr' | exact Hr'].
  - intros Hnd. rewrite (findBlock_exact toLowerCase _ _ _ Hr'). f_equal.
    destruct Hr' as (before & after & E & Hx & _). subst blocks.
    symmetry.
    apply (NoDup_map_first (fun f => normalizePath (path f))
             before after r' r Hnd Hin).
    symmetry; exact Hx.
Qed.

Lemma found_under_own_path_witness :
  findBlock asciiLower (parse mixDump) (lit "docs/B.md")
    = Some {| path := lit "docs/B.md"; content := [lit "hello"; lit ""] |}.
Proof.
  apply (proj2 (found_under_own_path asciiLower (parse mixDump)
                  {| path := lit "docs/B.md";
                     content := [lit "hello"; lit ""] |}
                  (or_intror (or_introl eq_refl)))).
  repeat constructor; simpl; intuition discriminate.
Defined.

(** *** The forms of a request *)

Lemma trimStart_app_spaces (w s : jsstring) :
  forallb isWhiteSpace w = true -> trimStart (w ++ s) = trimStart s.
Proof.
  induction w as [|c w IH]; simpl; intros H; [reflexivity|].
  apply andb_true_iff in H as [Hc Hw].
  rewrite trimStart_space by exact Hc. auto.
Qed.

Lemma trimStart_app_keep (s t : jsstring) :
  trimStart s <> [] -> trimStart (s ++ t) = trimStart s ++ t.
Proof.
  unfold trimStart. induction s as [|c s IH]; simpl; [congruence|].
  destruct (isWhiteSpace c); [exact IH | reflexivity].
Qed.

Lemma trimStart_nil_iff (s : jsstring) :
  trimStart s = [] <-> forallb isWhiteSpace s = true.
Proof.
  unfold trimStart. induction s as [|c s IH]; simpl; [tauto|].
  destruct (isWhiteSpace c); simpl; [exact IH|].
  split; discriminate.
Qed.

Lemma trim_padded (w s w' : jsstring) :
  forallb isWhiteSpace w = true -> forallb isWhiteSpace w' = true ->
  trim (w ++ s ++ w') = trim s.
Proof.
  intros Hw Hw'. unfold trim. rewrite trimStart_app_spaces by exact Hw.
  destruct (trimStart s) as [|c t] eqn:E.
  - apply trimStart_nil_iff in E.
    assert (H : forallb isWhiteSpace (s ++ w') = true)
      by (rewrite forallb_app, E, Hw'; reflexivity).
    apply trimStart_nil_iff in H. rewrite H; reflexivity.
  - rewrite trimStart_app_keep by (rewrite E; discriminate).
    rewrite E. apply trimEnd_app_spaces; exact Hw'.
Qed.

Lemma replaceBackslashes_spaces (w : jsstring) :
  forallb isWhiteSpace w = true -> replaceBackslashes w = w.
Proof.
  unfold replaceBackslashes.
  induction w as [|c w IH]; simpl; intros H; [reflexivity|].
  apply andb_true_iff in H as [Hc Hw]. rewrite (IH Hw).
  destruct (N.eqb_spec c BACKSLASH) as [-> | _]; [discriminate Hc|].
  reflexivity.
Qed.

Lemma replaceBackslashes_app (a b : jsstring) :
  replaceBackslashes (a ++ b) = replaceBackslashes a ++ replaceBackslashes b.
Proof. apply map_app. Qed.

Lemma replaceBackslashes_idem (s : jsstring) :
  replaceBackslashes (replaceBackslashes s) = replaceBackslashes s.
Proof.
  unfold replaceBackslashes. rewrite map_map. apply map_ext.
  intros c. destruct (N.eqb_spec c BACKSLASH); [reflexivity|].
  destruct (N.eqb_spec c BACKSLASH); [contradiction | reflexivity].
Qed.

Lemma stripDotSlash_padded (w f w' : jsstring) :
  forallb isWhiteSpace w = true -> forallb isWhiteSpace w' = true ->
  startsWith f [DOT; SLASH] = false ->
  stripDotSlash (w ++ f ++ w') = w ++ f ++ w'.
Proof.
  intros Hw Hw' Hf. unfold stripDotSlash.
  destruct (stripPrefix [DOT; SLASH] (w ++ f ++ w')) as [rest|] eqn:E;
    [|reflexivity].
  exfalso. apply stripPrefix_Some in E.
  destruct w as [|c w]; simpl in *.
  - destruct f as [|d [|e f]]; simpl in *.
    + destruct w' as [|c w']; [discriminate|].
      injection E as -> _. discriminate Hw'.
    + destruct w' as [|c w']; [discriminate|].
      injection E as -> -> _. discriminate Hw'.
    + injection E as -> -> _. discriminate Hf.
  - injection E as -> _. discriminate Hw.
Qed.

Lemma stripDotSlash_cons (d : char) (s : jsstring) :
  d <> DOT -> stripDotSlash (d :: s) = d :: s.
Proof.
  intros Hd. unfold stripDotSlash; cbn [stripPrefix].
  destruct (N.eqb_spec DOT d); [congruence | reflexivity].
Qed.

Lemma stripDotSlash_dot (e : char) (s : jsstring) :
  stripDotSlash (DOT :: e :: s) = if N.eqb SLASH e then s else DOT :: e :: s.
Proof.
  unfold stripDotSlash; cbn [stripPrefix]. rewrite N.eqb_refl.
  destruct (N.eqb SLASH e); reflexivity.
Qed.

Lemma stripDotSlash_backslashes (f : jsstring) :
  startsWith f [DOT; BACKSLASH] = false ->
  stripDotSlash (replaceBackslashes f)
    = replaceBackslashes (stripDotSlash f).
Proof.
  intros Hf. destruct f as [|d f]; [reflexivity|].
  destruct (N.eqb_spec d DOT) as [-> | Hd].
  - destruct f as [|e f]; [reflexivity|].
    change (replaceBackslashes (DOT :: e :: f))
      with (DOT :: (if N.eqb e BACKSLASH then SLASH else e)
              :: replaceBackslashes f).
    rewrite !stripDotSlash_dot.
    destruct (N.eqb_spec e BACKSLASH) as [-> | He].
    + unfold startsWith in Hf; simpl in Hf.
      destruct f; discriminate Hf.
    + destruct (N.eqb_spec SLASH e) as [<- | Hs]; [reflexivity|].
      unfold replaceBackslashes; simpl.
      destruct (N.eqb_spec e BACKSLASH); [contradiction | reflexivity].
  - rewrite (stripDotSlash_cons d f Hd).
    change (replaceBackslashes (d :: f))
      with ((if N.eqb d BACKSLASH then SLASH else d) :: replaceBackslashes f).
    apply stripDotSlash_cons.
    destruct (N.eqb_spec d BACKSLASH); [discriminate | exact Hd].
Qed.

(** X5.  The lookup does not tell these forms of a request apart: with or
    without one leading ["./"] (for a request that does not itself start
    with it), with backslashes or with slashes (unless it starts with a dot
    and a backslash), and with or without white space around it. *)
Theorem request_forms :
  forall toLowerCase blocks f,
    (startsWith f [DOT; SLASH] = false ->
     findBlock toLowerCase blocks ([DOT; SLASH] ++ f)
       = findBlock toLowerCase blocks f) /\
    (startsWith f [DOT; BACKSLASH] = false ->
     findBlock toLowerCase blocks (replaceBackslashes f)
       = findBlock toLowerCase blocks f) /\
    (startsWith f [DOT; SLASH] = false ->
     forall w w',
       forallb isWhiteSpace w = true -> forallb isWhiteSpace w' = true ->
       findBlock toLowerCase blocks (w ++ f ++ w')
         = findBlock toLowerCase blocks f).
Proof.
  intros toLowerCase blocks f.
  assert (Hn : forall g, normalizePath g = normalizePath f ->
                 findBlock toLowerCase blocks g
                   = findBlock toLowerCase blocks f)
    by (intros g E; unfold findBlock; rewrite E; reflexivity).
  split; [|split].
  - intros Hf; apply Hn. unfold normalizePath, stripDotSlash at 2.
    unfold startsWith in Hf.
    destruct (stripPrefix [DOT; SLASH] f); [discriminate | reflexivity].
  - intros Hf; apply Hn. unfold normalizePath.
    rewrite (stripDotSlash_backslashes f Hf), replaceBackslashes_idem.
    reflexivity.
  - intros Hf w w' Hw Hw'; apply Hn. unfold normalizePath.
    rewrite (stripDotSlash_padded w f w' Hw Hw' Hf).
    assert (E : stripDotSlash f = f).
    { unfold stripDotSlash. unfold startsWith in Hf.
      destruct (stripPrefix [DOT; SLASH] f); [discriminate | reflexivity]. }
    rewrite E, !replaceBackslashes_app.
    rewrite (replaceBackslashes_spaces w Hw),
            (replaceBackslashes_spaces w' Hw').
    apply trim_padded; assumption.
Qed.

Lemma request_forms_witness :
  findBlock asciiLower (parse mixDump) (lit "./src/a.ts")
    = findBlock asciiLower (parse mixDump) (lit "src/a.ts") /\
  findBlock asciiLower (parse mixDump) (lit "src/a.ts")
    = findBlock asciiLower (parse mixDump) (lit "src\a.ts") /\
  findBlock asciiLower (parse mixDump) (lit " src\a.ts  ")
    = findBlock asciiLower (parse mixDump) (lit "src\a.ts").
Proof.
  split; [|split].
  - apply (proj1 (request_forms asciiLower (parse mixDump) (lit "src/a.ts"))).
    reflexivity.
  - apply (proj1 (proj2 (request_forms asciiLower (parse mixDump)
                           (lit "src\a.ts")))).
    reflexivity.
  - apply (proj2 (proj2 (request_forms asciiLower (parse mixDump)
                           (lit "src\a.ts")))
             eq_refl [SPACE] [SPACE; SPACE]); reflexivity.
Defined.

(** ** The excerpt *)

Lemma length_mapLast {A : Type} (f : A -> A) (l : list A) :
  length (mapLast f l) = length l.
Proof.
  induction l as [|x l IH]; [reflexivity|].
  destruct l as [|y l]; [reflexivity|].
  change (length (x :: mapLast f (y :: l)) = length (x :: y :: l)).
  simpl in *; rewrite IH; reflexivity.
Qed.

Lemma length_bodyLines (ls : list jsstring) :
  length (bodyLines ls) = Nat.max 1 (length ls).
Proof.
  destruct ls as [|l rest]; [reflexivity|].
  unfold bodyLines, indexedFrom; simpl.
  rewrite length_map, length_combine, length_seq, Nat.min_id. reflexivity.
Qed.

Lemma Forall_firstn {A : Type} (P : A -> Prop) (n : nat) (l : list A) :
  Forall P l -> Forall P (firstn n l).
Proof.
  intros H; rewrite Forall_forall in *.
  intros x Hx; apply H. rewrite <- (firstn_skipn n l).
  apply in_or_app; left; exact Hx.
Qed.

(** The body of a record of the index, for any [maxLines], cut at its line
    breaks. *)
Lemma excerpt_lines (raw : jsstring) (r : FileBlock) (m : Z) :
  In r (parse raw) ->
  split LF (extract r (Some m))
    = mapLast trimEnd
        (bodyLines (firstn (clampIndex (length (content r)) m) (content r))).
Proof.
  intros Hin. rewrite extract_spec. apply body_lines.
  apply Forall_firstn, (parse_content_no_LF raw), Hin.
Qed.

(** X6.  The excerpt is bounded: for a record of the index and
    [maxLines >= 0], the body has [min(maxLines, length)] lines, or the one
    empty line of the empty body when that is 0; so never more than
    [maxLines] lines when [maxLines] is 1 or more. *)
Theorem excerpt_is_bounded :
  forall raw r m,
    In r (parse raw) -> (0 <= m)%Z ->
    length (split LF (extract r (Some m)))
      = Nat.max 1 (Nat.min (Z.to_nat m) (length (content r))) /\
    ((1 <= m)%Z ->
     (Z.of_nat (length (split LF (extract r (Some m)))) <= m)%Z).
Proof.
  intros raw r m Hin Hm.
  assert (E : length (split LF (extract r (Some m)))
              = Nat.max 1 (Nat.min (Z.to_nat m) (length (content r)))).
  { rewrite (excerpt_lines raw r m Hin), length_mapLast, length_bodyLines.
    rewrite clampIndex_nonneg by exact Hm.
    rewrite length_firstn. lia. }
  split; [exact E | rewrite E; lia].
Qed.

Lemma excerpt_is_bounded_witness :
  length (split LF (extract {| path := lit "src/a.ts";
                                content := [lit "const a = 1;";
                                            lit "# File list"] |}
                      (Some 1%Z))) = 1.
Proof.
  apply (proj1 (excerpt_is_bounded mixDump
                  {| path := lit "src/a.ts";
                     content := [lit "const a = 1;"; lit "# File list"] |}
                  1%Z (or_introl eq_refl) ltac:(lia))).
Defined.

(** *** The answer read again as a dump *)

Lemma isDelimiter_head (l : jsstring) :
  isDelimiter l = true ->
  exists c rest, l = c :: rest /\ (c = 60%N \/ c = HASH).
Proof.
  unfold isDelimiter, opening.
  destruct (xmlMatch l) as [p|] eqn:Ex.
  { intros _. apply xmlMatch_iff in Ex as [-> _].
    eexists _, _; split; [reflexivity | left; reflexivity]. }
  destruct (hashMatch l) as [p|] eqn:Eh.
  { intros _. apply hashMatch_iff in Eh as [-> _].
    eexists _, _; split; [reflexivity | right; reflexivity]. }
  unfold closeMatch. intros H; apply eqb_eq in H; subst l.
  eexists _, _; split; [reflexivity | left; reflexivity].
Qed.

Lemma plain_by_head (c : char) (x y w : jsstring) :
  c <> 60%N -> c <> HASH -> c :: x = y ++ w -> isDelimiter y = false.
Proof.
  intros H1 H2 E. destruct (isDelimiter y) eqn:D; [|reflexivity].
  exfalso. destruct (isDelimiter_head y D) as (d & rest & -> & Hd).
  injection E as -> _. destruct Hd; contradiction.
Qed.

Lemma mapLast_In {A : Type} (f : A -> A) (l : list A) (y : A) :
  In y (mapLast f l) -> exists x, In x l /\ (y = x \/ y = f x).
Proof.
  induction l as [|x l IH]; [intros []|].
  destruct l as [|z l].
  - intros [<- | []]. exists x; split; [left; reflexivity | right; reflexivity].
  - change (In y (x :: mapLast f (z :: l)) ->
            exists x0, In x0 (x :: z :: l) /\ (y = x0 \/ y = f x0)).
    intros [<- | H].
    + exists x; split; [left; reflexivity | left; reflexivity].
    + destruct (IH H) as (x0 & Hin & Hy).
      exists x0; split; [right; exact Hin | exact Hy].
Qed.

Lemma bodyLines_head (ls : list jsstring) (x : jsstring) :
  In x (bodyLines ls) ->
  x = [] \/ exists c rest, x = c :: rest /\ c <> 60%N /\ c <> HASH.
Proof.
  destruct ls as [|l rest]; simpl.
  - intros [<- | []]; left; reflexivity.
  - intros [<- | H]; right.
    + unfold numberedLine.
      destruct (numberToString_head 1) as (d & ds & -> & Hd).
      exists d, (ds ++ lit ": " ++ l); split; [reflexivity|].
      split; intros ->; discriminate Hd.
    + apply in_map_iff in H as [[i l'] [<- _]].
      eexists _, _; split; [reflexivity | split; discriminate].
Qed.

Lemma body_lines_plain (ls : list jsstring) :
  plainLines (mapLast trimEnd (bodyLines ls)).
Proof.
  apply Forall_forall. intros y Hy.
  apply mapLast_In in Hy as (x & Hx & Hy).
  destruct (bodyLines_head ls x Hx) as [-> | (c & rest & -> & H1 & H2)].
  - destruct Hy as [-> | ->]; reflexivity.
  - destruct Hy as [-> | ->].
    + apply (plain_by_head c rest (c :: rest) [] H1 H2).
      rewrite app_nil_r; reflexivity.
    + destruct (trimEnd_decompose (c :: rest)) as [w [E _]].
      exact (plain_by_head c rest _ w H1 H2 E).
Qed.

Lemma noLineTerminator_no_LF (p : jsstring) :
  noLineTerminator p = true -> ~ In LF p.
Proof.
  unfold noLineTerminator. rewrite forallb_forall.
  intros H Hin. apply H in Hin; discriminate Hin.
Qed.

Lemma noLineTerminator_trim (p : jsstring) :
  noLineTerminator p = true -> noLineTerminator (trim p) = true.
Proof.
  unfold noLineTerminator. rewrite !forallb_forall.
  intros H c Hc. apply H, trim_incl, Hc.
Qed.

(** The path of a record of the index is a trimmed text without line
    terminator. *)
Lemma parse_path (raw : jsstring) (r : FileBlock) :
  In r (parse raw) ->
  noLineTerminator (path r) = true /\ trim (path r) = path r.
Proof.
  intros Hin.
  pose proof (blockOf_pushCurrent _ _ (tokInvariant_lines (split LF raw)))
    as Hb.
  rewrite Forall_forall in Hb.
  destruct (Hb r Hin) as (pre & o & p & post & _ & Ho & -> & _).
  assert (Hp : validPath p).
  { unfold opening in Ho. destruct (xmlMatch o) as [q|] eqn:Ex.
    - injection Ho as ->. apply xmlMatch_iff in Ex; tauto.
    - apply hashMatch_iff in Ho; tauto. }
  split; [apply noLineTerminator_trim; apply Hp | apply trim_idem].
Qed.

Lemma excerptText_parses (raw : jsstring) (found : FileBlock)
  (maxLines : option Z) :
  In found (parse raw) -> path found <> [] ->
  parse (excerptText found maxLines)
    = [ {| path := path found;
           content := split LF (extract found maxLines) |} ].
Proof.
  intros Hin Hne.
  destruct (parse_path raw found Hin) as [Hlt Htrim].
  assert (Hv : validPath (path found)) by (split; assumption).
  assert (Hplain : plainLines (split LF (extract found maxLines))).
  { destruct maxLines as [m|].
    - rewrite (excerpt_lines raw found m Hin). apply body_lines_plain.
    - change (extract found None) with (extract found (Some 40%Z)).
      rewrite (excerpt_lines raw found 40 Hin). apply body_lines_plain. }
  assert (Hsplit : split LF (excerptText found maxLines)
                   = xmlLine (path found)
                       :: split LF (extract found maxLines) ++ [xmlClose]).
  { unfold excerptText.
    change (xmlOpen ++ path found ++ xmlOpenEnd ++ LF
              :: extract found maxLines ++ LF :: xmlClose)
      with (xmlOpen ++ path found ++ xmlOpenEnd ++ LF
              :: (extract found maxLines ++ LF :: xmlClose)).
    replace (xmlOpen ++ path found ++ xmlOpenEnd ++ LF
               :: (extract found maxLines ++ LF :: xmlClose))
      with (xmlLine (path found) ++ LF
              :: (extract found maxLines ++ LF :: xmlClose))
      by (unfold xmlLine; rewrite <- !app_assoc; reflexivity).
    rewrite !split_app.
    rewrite (split_no_sep_id LF (xmlLine (path found))).
    - reflexivity.
    - unfold xmlLine. intros H.
      apply in_app_or in H as [H | H]; [simpl in H; intuition discriminate|].
      apply in_app_or in H as [H | H];
        [exact (noLineTerminator_no_LF _ Hlt H)|].
      simpl in H; intuition discriminate. }
  unfold parse. rewrite Hsplit.
  change (xmlLine (path found)
            :: split LF (extract found maxLines) ++ [xmlClose])
    with ((xmlLine (path found) :: split LF (extract found maxLines))
            ++ [xmlClose]).
  rewrite tokLines_app.
  rewrite (tokLines_open_block _ _ _ _ (opening_xmlLine _ Hv) Hplain).
  rewrite (tokLines_close_block [] _ (Forall_nil _)).
  rewrite Htrim. reflexivity.
Qed.

Lemma findBlock_In (toLowerCase : jsstring -> jsstring)
  (blocks : list FileBlock) (file : jsstring) (found : FileBlock) :
  findBlock toLowerCase blocks file = Some found -> In found blocks.
Proof.
  unfold findBlock.
  destruct (find (fun f => eqb (normalizePath (path f))
                               (normalizePath file)) blocks) eqn:E.
  - intros H; injection H as <-. apply (find_some _ _ E).
  - intros H. apply (find_some _ _ H).
Qed.

(** X7.  The answer of [searchCodebase] is a dump of one file: when the
    operation finds a record whose path is not empty, the text it answers,
    read again by the tokenizer, gives one record, with the path of the
    record found and the lines of the body as content. *)
Theorem answer_is_a_dump :
  forall toLowerCase fs f codebase maxLines raw found,
    existsSync fs (codebaseFileOf codebase) = true ->
    readFileSync fs (codebaseFileOf codebase) = Normal raw ->
    f <> [] ->
    findBlock toLowerCase (parse raw) f = Some found ->
    path found <> [] ->
    exists text,
      searchCodebase toLowerCase fs (Some f) codebase maxLines
        = Normal [text] /\
      parse text = [ {| path := path found;
                       content := split LF (extract found maxLines) |} ].
Proof.
  intros toLowerCase fs f codebase maxLines raw found Hex Hread Hf Hfind Hp.
  exists (excerptText found maxLines). split.
  - unfold searchCodebase.
    change (match codebase with
            | Some (c :: cs) => c :: cs
            | _ => defaultCodebase
            end) with (codebaseFileOf codebase).
    rewrite Hex. destruct f as [|c cs]; [congruence|].
    simpl negb; cbv iota. rewrite Hread. simpl bind. rewrite Hfind.
    reflexivity.
  - apply (excerptText_parses raw); [|exact Hp].
    exact (findBlock_In _ _ _ _ Hfind).
Qed.

Lemma answer_is_a_dump_witness :
  exists text,
    searchCodebase asciiLower sampleFs (Some (lit "docs/b.md")) None None
      = Normal [text] /\
    parse text = [ {| path := lit "docs/B.md";
                     content := [lit "1: hello"; lit " 2:"] |} ].
Proof.
  apply (answer_is_a_dump asciiLower sampleFs (lit "docs/b.md") None None
           mixDump
           {| path := lit "docs/B.md"; content := [lit "hello"; lit ""] |}).
  - reflexivity.
  - reflexivity.
  - discriminate.
  - reflexivity.
  - discriminate.
Defined.

(** ** The patterns of the ignore file *)

Lemma isPattern_trimmed (line : jsstring) :
  isPattern (trim line) = true ->
  trim line <> [] /\ trim (trim line) = trim line /\
  startsWith (trim line) [HASH] = false.
Proof.
  unfold isPattern. intros H. apply andb_true_iff in H as [H1 H2].
  apply negb_true_iff in H1, H2. apply eqb_neq in H1.
  repeat split; [exact H1 | apply trim_idem | exact H2].
Qed.

Lemma getCodebaseIgnoreGlobs_patterns
  (pathJoin : jsstring -> jsstring -> jsstring) (fs : FileSystem)
  (dir s : jsstring) :
  getCodebaseIgnoreGlobs pathJoin fs dir = Normal (Some s) ->
  filePatterns pathJoin fs dir <> [] /\
  s = join [COMMA] (filePatterns pathJoin fs dir).
Proof.
  unfold getCodebaseIgnoreGlobs, filePatterns.
  destruct (existsSync fs (pathJoin dir (lit ".codebaseignore")));
    simpl; [|discriminate].
  destruct (readFileSync fs (pathJoin dir (lit ".codebaseignore")))
    as [text|e]; simpl; [|discriminate].
  destruct (filter isPattern (map trim (split LF text))) as [|l a];
    simpl Nat.eqb; cbv iota; [discriminate|].
  intros H; injection H as <-. split; [discriminate | reflexivity].
Qed.

Lemma getCodebaseIgnoreGlobs_none
  (pathJoin : jsstring -> jsstring -> jsstring) (fs : FileSystem)
  (dir : jsstring) :
  getCodebaseIgnoreGlobs pathJoin fs dir = Normal None ->
  filePatterns pathJoin fs dir = [].
Proof.
  unfold getCodebaseIgnoreGlobs, filePatterns.
  destruct (existsSync fs (pathJoin dir (lit ".codebaseignore")));
    simpl; [|reflexivity].
  destruct (readFileSync fs (pathJoin dir (lit ".codebaseignore")))
    as [text|e]; simpl; [|discriminate].
  destruct (filter isPattern (map trim (split LF text))) as [|l a];
    simpl Nat.eqb; cbv iota; [reflexivity | discriminate].
Qed.

Lemma filePatterns_clean (pathJoin : jsstring -> jsstring -> jsstring)
  (fs : FileSystem) (dir : jsstring) :
  Forall (fun l => l <> [] /\ trim l = l /\ startsWith l [HASH] = false
                   /\ ~ In LF l)
    (filePatterns pathJoin fs dir).
Proof.
  unfold filePatterns.
  destruct (existsSync fs (pathJoin dir (lit ".codebaseignore")));
    [|constructor].
  destruct (readFileSync fs (pathJoin dir (lit ".codebaseignore")))
    as [text|e]; [|constructor].
  apply Forall_forall. intros l Hl.
  apply filter_In in Hl as [Hin Hp].
  apply in_map_iff in Hin as [line [<- Hline]].
  destruct (isPattern_trimmed line Hp) as (H1 & H2 & H3).
  repeat split; auto.
  intros H. apply trim_incl in H.
  pose proof (split_no_sep LF text) as Hs. rewrite Forall_forall in Hs.
  exact (Hs line Hline H).
Qed.

(** X8.  What the loader answers is the list of the patterns of the file,
    in the order of the file, joined by commas: each pattern is a line
    trimmed, not empty and not a comment.  Cutting the answer at its commas
    gives the patterns back, provided no pattern holds a comma itself. *)
Theorem ignore_patterns_roundtrip :
  forall pathJoin fs dir s,
    getCodebaseIgnoreGlobs pathJoin fs dir = Normal (Some s) ->
    let patterns := filePatterns pathJoin fs dir in
    patterns <> [] /\
    s = join [COMMA] patterns /\
    Forall (fun l => l <> [] /\ trim l = l /\ startsWith l [HASH] = false
                     /\ ~ In LF l) patterns /\
    (Forall (fun l => ~ In COMMA l) patterns -> split COMMA s = patterns).
Proof.
  intros pathJoin fs dir s H patterns.
  destruct (getCodebaseIgnoreGlobs_patterns pathJoin fs dir s H) as [Hne E].
  repeat split; auto.
  - apply filePatterns_clean.
  - intros Hc. rewrite E. apply split_join; assumption.
Qed.

Lemma ignore_patterns_roundtrip_witness :
  split COMMA (lit "node_modules,dist,*.log")
    = [lit "node_modules"; lit "dist"; lit "*.log"].
Proof.
  apply (proj2 (proj2 (proj2
           (ignore_patterns_roundtrip sampleJoin ignoreFs (lit "repo")
              (lit "node_modules,dist,*.log") eq_refl)))).
  repeat constructor; simpl; intuition discriminate.
Defined.

(** *** The [--ignore] argument *)

Lemma truthy_Some (s : jsstring) : s <> [] -> truthy (Some s) = true.
Proof. destruct s; [congruence | reflexivity]. Qed.

(** X9.  The [--ignore] argument of [getCodebase] and [saveCodebase] is
    the list of the patterns of the caller, if any, followed by the
    patterns of the ignore file of the working directory, joined by commas;
    the option is left out exactly when there is no pattern at all, so the
    command never carries an empty list. *)
Theorem ignore_argument :
  forall pathJoin fs dir ignoreFromFile command ignorePatterns,
    getCodebaseIgnoreGlobs pathJoin fs dir = Normal ignoreFromFile ->
    let patterns :=
      callerPatterns ignorePatterns ++ filePatterns pathJoin fs dir in
    addIgnore command (combineIgnore ignorePatterns ignoreFromFile)
      = match patterns with
        | [] => command
        | _ :: _ =>
            command ++ lit " --ignore " ++ DQUOTE
              :: join [COMMA] patterns ++ [DQUOTE]
        end /\
    (patterns <> [] -> join [COMMA] patterns <> []).
Proof.
  intros pathJoin fs dir ignoreFromFile command ignorePatterns H patterns.
  subst patterns. unfold callerPatterns.
  destruct ignoreFromFile as [s|].
  - destruct (getCodebaseIgnoreGlobs_patterns _ _ _ _ H) as [Hne E].
    assert (Hs : s <> []).
    { rewrite E. destruct (filePatterns pathJoin fs dir) as [|l a] eqn:Ep;
        [congruence|].
      apply join_head_not_nil.
      pose proof (filePatterns_clean pathJoin fs dir) as Hc.
      rewrite Ep in Hc. inversion Hc; tauto. }
    unfold combineIgnore, addIgnore. rewrite (truthy_Some s Hs).
    destruct (truthy ignorePatterns) eqn:Et; simpl andb; cbv iota.
    + destruct ignorePatterns as [[|c cs]|]; try discriminate Et.
      cbn [app textOf].
      change (truthy (Some (c :: cs ++ COMMA :: s))) with true. cbv iota.
      split.
      * rewrite join_cons by exact Hne. rewrite <- E. reflexivity.
      * intros _. apply join_head_not_nil; discriminate.
    + rewrite (truthy_Some s Hs). cbn [app textOf]. split.
      * destruct (filePatterns pathJoin fs dir) as [|l a]; [congruence|].
        rewrite E; reflexivity.
      * intros _. rewrite <- E; exact Hs.
  - rewrite (getCodebaseIgnoreGlobs_none _ _ _ H), app_nil_r.
    unfold combineIgnore, addIgnore.
    destruct (truthy ignorePatterns) eqn:Et; simpl andb; cbv iota.
    + rewrite Et. destruct ignorePatterns as [[|c cs]|]; try discriminate Et.
      split; [reflexivity | intros _; discriminate].
    + split; [reflexivity | congruence].
Qed.

Lemma ignore_argument_witness :
  getCodebaseCommand
    {| cwd := None; format := None; includeFileSummary := None;
       includeDirectoryStructure := None; removeComments := None;
       removeEmptyLines := None; showLineNumbers := None;
       includePatterns := None; ignorePatterns := Some (lit "*.md") |}
    (Some (lit "node_modules,dist,*.log"))
  = lit "npx repomix --output project.codebase --ignore "
      ++ DQUOTE :: lit "*.md,node_modules,dist,*.log" ++ [DQUOTE].
Proof.
  apply (proj1 (ignore_argument sampleJoin ignoreFs (lit "repo")
                  (Some (lit "node_modules,dist,*.log"))
                  (lit "npx repomix --output project.codebase")
                  (Some (lit "*.md")) eq_refl)).
Defined.

(** ** The report *)

(** *** [indexOf] and [includes] *)

Lemma occurs_occursAt (p s : jsstring) :
  occurs p s <-> exists i, occursAt p s i.
Proof.
  split.
  - intros (before & after & E). exists (length before), before, after; auto.
  - intros (i & before & after & E & _). exists before, after; exact E.
Qed.

Lemma indexOfFrom_cases (k : Z) (s p : jsstring) :
  indexOfFrom k s p = (-1)%Z \/
  exists j, occursAt p s j /\ indexOfFrom k s p = (k + Z.of_nat j)%Z.
Proof.
  revert k; induction s as [|c s IH]; intros k; simpl.
  - destruct (startsWith [] p) eqn:E; [|left; reflexivity].
    right; exists 0; split; [apply occursAt_0; exact E | lia].
  - destruct (startsWith (c :: s) p) eqn:E.
    + right; exists 0; split; [apply occursAt_0; exact E | lia].
    + destruct (IH (k + 1)%Z) as [H | (j & Hj & H)]; [left; exact H|].
      right; exists (S j); split; [apply occursAt_S; exact Hj|].
      rewrite H; lia.
Qed.

Lemma indexOfFrom_found (k : Z) (s p : jsstring) (i : nat) :
  occursAt p s i ->
  exists j, j <= i /\ occursAt p s j /\
            indexOfFrom k s p = (k + Z.of_nat j)%Z.
Proof.
  revert k i; induction s as [|c s IH]; intros k i Hi; simpl.
  - destruct i as [|i]; [|exfalso; exact (occursAt_nil_S _ _ Hi)].
    rewrite (proj1 (occursAt_0 p []) Hi).
    exists 0. split; [lia | split; [exact Hi | lia]].
  - destruct (startsWith (c :: s) p) eqn:E.
    + exists 0. split; [lia | split; [apply occursAt_0; exact E | lia]].
    + destruct i as [|i].
      { apply occursAt_0 in Hi; congruence. }
      apply occursAt_S in Hi.
      destruct (IH (k + 1)%Z i Hi) as (j & Hle & Hj & H).
      exists (S j). split; [lia | split; [apply occursAt_S; exact Hj|]].
      rewrite H; lia.
Qed.

Lemma includes_iff (s p : jsstring) : includes s p = true <-> occurs p s.
Proof.
  unfold includes, indexOf. rewrite occurs_occursAt. split.
  - intros H. destruct (indexOfFrom_cases 0 s p) as [E | (j & Hj & _)].
    + rewrite E in H; discriminate H.
    + exists j; exact Hj.
  - intros [i Hi]. destruct (indexOfFrom_found 0 s p i Hi) as (j & _ & _ & E).
    rewrite E. apply Z.leb_le; lia.
Qed.

Lemma occurs_trim (p s : jsstring) : occurs p (trim s) -> occurs p s.
Proof.
  intros (before & after & E).
  destruct (dropWhile_decompose isWhiteSpace s) as [ws [Es _]].
  destruct (trimEnd_decompose (trimStart s)) as [w [Et _]].
  fold (trimStart s) in Es. fold (trim s) in Et.
  exists (ws ++ before), (after ++ w).
  rewrite Es at 1. rewrite Et at 1. rewrite E.
  rewrite <- !app_assoc; reflexivity.
Qed.

Lemma prefix_before_sep (c : char) (p after a b : jsstring) :
  ~ In c p -> p ++ after = a ++ c :: b -> exists r, a = p ++ r.
Proof.
  revert a; induction p as [|x p IH]; intros a Hc E.
  - exists a; reflexivity.
  - destruct a as [|y a]; simpl in E.
    + injection E as -> _. exfalso; apply Hc; left; reflexivity.
    + injection E as -> E.
      destruct (IH a (fun H => Hc (or_intror H)) E) as [r ->].
      exists r; reflexivity.
Qed.

Lemma occurs_app_sep (c : char) (p a b : jsstring) :
  ~ In c p -> occurs p (a ++ c :: b) -> occurs p a \/ occurs p b.
Proof.
  intros Hc (before & after & E).
  revert a E; induction before as [|x before IH]; intros a E.
  - simpl in E. symmetry in E.
    destruct (prefix_before_sep c p after a b Hc E) as [r ->].
    left; exists [], r; reflexivity.
  - destruct a as [|y a]; simpl in E.
    + injection E as _ ->. right; exists before, after; reflexivity.
    + injection E as -> E.
      destruct (IH a E) as [(b1 & a1 & ->) | H]; [|right; exact H].
      left; exists (x :: b1), a1; reflexivity.
Qed.

Lemma occurs_join (p : jsstring) (ls : list jsstring) :
  p <> [] -> ~ In LF p -> occurs p (join [LF] ls) ->
  exists l, In l ls /\ occurs p l.
Proof.
  intros Hne Hlf. induction ls as [|l ls IH].
  - intros (before & after & E). exfalso.
    destruct before; [destruct p; [congruence | discriminate] | discriminate].
  - destruct ls as [|l' ls].
    + intros H; exists l; split; [left; reflexivity | exact H].
    + rewrite join_cons by discriminate.
      change ([LF] ++ join [LF] (l' :: ls))
        with (LF :: join [LF] (l' :: ls)).
      intros H. apply (occurs_app_sep LF p) in H; [|exact Hlf].
      destruct H as [H | H].
      * exists l; split; [left; reflexivity | exact H].
      * destruct (IH H) as (x & Hx & Ho).
        exists x; split; [right; exact Hx | exact Ho].
Qed.

Lemma keepLine_banner (toLowerCase : jsstring -> jsstring)
  (line banner : jsstring) :
  keepLine toLowerCase line = true -> In banner bannerTexts ->
  includes line banner = false.
Proof.
  unfold keepLine. intros H.
  apply andb_true_iff in H as [H H4].
  apply andb_true_iff in H as [H _].
  apply andb_true_iff in H as [H1 H2].
  apply negb_true_iff in H1, H2, H4.
  intros [<- | [<- | [<- | []]]]; assumption.
Qed.

(** X10.  No banner text is left in the filtered report: none of the
    three texts that the filter looks for as they are written occurs
    anywhere in it. *)
Theorem banners_are_removed :
  forall toLowerCase output banner,
    In banner bannerTexts ->
    includes (filterBanners toLowerCase output) banner = false.
Proof.
  intros toLowerCase output banner Hb.
  destruct (includes (filterBanners toLowerCase output) banner) eqn:E;
    [|reflexivity].
  exfalso. apply includes_iff in E. unfold filterBanners in E.
  apply occurs_trim in E.
  assert (Hp : banner <> [] /\ ~ In LF banner).
  { destruct Hb as [<- | [<- | [<- | []]]];
      (split; [discriminate | simpl; intuition discriminate]). }
  apply occurs_join in E as (l & Hl & Ho); [|tauto|tauto].
  apply filter_In in Hl as [_ Hk].
  apply includes_iff in Ho.
  rewrite (keepLine_banner toLowerCase l banner Hk Hb) in Ho.
  discriminate Ho.
Qed.

Lemma banners_are_removed_witness :
  includes (filterBanners asciiLower reportWithSummary)
    (lit "Repomix is now available") = false.
Proof.
  apply (banners_are_removed asciiLower reportWithSummary).
  left; reflexivity.
Defined.

(** *** The summary is the end of the report *)

Lemma summaryBlock_from_marker (s m : jsstring) :
  summaryMatch s = Some m ->
  exists before after,
    s = before ++ m ++ after /\ summaryBlock s = trim (m ++ after).
Proof.
  intros E. unfold summaryBlock; rewrite E.
  destruct (summaryMatch_Some _ _ E) as (i & Hocc & _ & Hmin).
  assert (Hfirst : forall j, j < i -> ~ occursAt m s j).
  { intros j Hj Hoj. apply (Hmin j Hj).
    destruct (summaryMatch_marker _ _ E) as [-> | ->];
      [left | right]; exact Hoj. }
  unfold indexOf. rewrite (indexOfFrom_first m s i 0 Hocc Hfirst).
  rewrite Z.add_0_l, slice_to_end by exact (occursAt_bound _ _ _ Hocc).
  destruct Hocc as (before & after & -> & <-).
  exists before, after; split; [reflexivity|].
  rewrite skipn_app, Nat.sub_diag, skipn_all. reflexivity.
Qed.

Lemma trimEnd_suffix (before s : jsstring) :
  trimEnd (before ++ s) = before ++ s -> trimEnd s = s.
Proof.
  rewrite !trimEnd_fixed. intros H u w ->.
  apply (H (before ++ u) w). rewrite app_assoc; reflexivity.
Qed.

Lemma trimEnd_trim (s : jsstring) : trimEnd (trim s) = trim s.
Proof. unfold trim; apply trimEnd_idem. Qed.

Lemma join_skipn (n : nat) (ls : list jsstring) :
  exists pre, join [LF] ls = pre ++ join [LF] (skipn n ls).
Proof.
  revert ls; induction n as [|n IH]; intros ls; [exists []; reflexivity|].
  destruct ls as [|l ls]; [exists []; reflexivity|].
  destruct ls as [|l' ls].
  - exists l. simpl skipn. rewrite skipn_nil. simpl.
    rewrite app_nil_r; reflexivity.
  - destruct (IH (l' :: ls)) as [pre E].
    exists (l ++ LF :: pre). rewrite join_cons by discriminate.
    rewrite E. simpl skipn. rewrite <- app_assoc; reflexivity.
Qed.

(** X11.  The summary is always the end of the filtered report: the
    filtered text is some text followed by the summary.  With a marker the
    summary starts at the marker and nothing is trimmed away; without one
    it is the whole report when this has 20 lines at most. *)
Theorem summary_is_the_end :
  forall toLowerCase output,
    let filtered := filterBanners toLowerCase output in
    (exists before, filtered = before ++ summaryBlock filtered) /\
    ((forall k, ~ markerAt filtered k) ->
     length (split LF filtered) <= 20 ->
     summaryBlock filtered = filtered).
Proof.
  intros toLowerCase output filtered.
  assert (Ht : trim filtered = filtered) by apply filterBanners_trimmed.
  assert (Hte : trimEnd filtered = filtered)
    by exact (trimEnd_trim
                (join [LF] (filter (keepLine toLowerCase) (split LF output)))).
  assert (Hnone : summaryMatch filtered = None ->
                  summaryBlock filtered
                    = join [LF] (lastLines 20 (split LF filtered))).
  { intros E. unfold summaryBlock. rewrite E, Ht.
    apply (f_equal (join [LF])).
    exact (slice_last (split LF filtered) 20 ltac:(lia)). }
  split.
  - destruct (summaryMatch filtered) as [m|] eqn:E.
    + destruct (summaryBlock_from_marker _ _ E)
        as (before & after & Es & Eb).
      exists before. rewrite Eb. rewrite Es at 1. f_equal.
      unfold trim.
      assert (Hs : trimStart (m ++ after) = m ++ after).
      { destruct (summaryMatch_marker _ _ E) as [-> | ->];
          apply trimStart_cons; reflexivity. }
      rewrite Hs. symmetry. apply (trimEnd_suffix before).
      rewrite <- Es; exact Hte.
    + rewrite (Hnone eq_refl). unfold lastLines.
      destruct (join_skipn (length (split LF filtered) - 20)
                  (split LF filtered)) as [pre Ep].
      exists pre. rewrite <- Ep. symmetry; apply join_split.
  - intros Hno Hlen.
    destruct (summaryMatch filtered) as [m|] eqn:E.
    + destruct (summaryMatch_Some _ _ E) as (i & _ & Hm & _).
      exfalso; exact (Hno i Hm).
    + rewrite (Hnone eq_refl). unfold lastLines.
      replace (length (split LF filtered) - 20) with 0 by lia.
      apply join_split.
Qed.

Lemma summary_is_the_end_witness :
  summaryBlock (filterBanners asciiLower reportWithoutMarkers)
    = filterBanners asciiLower reportWithoutMarkers.
Proof.
  apply (proj2 (summary_is_the_end asciiLower reportWithoutMarkers)).
  - apply summaryMatch_None. reflexivity.
  - simpl. lia.
Defined.

(** *** The directory structure stops at the markers *)

Lemma startsWithCI_length (p s : jsstring) :
  startsWithCI p s = true -> length p <= length s.
Proof.
  revert s; induction p as [|a p IH]; intros s; simpl; [lia|].
  destruct s as [|c s]; [discriminate|].
  intros H; apply andb_true_iff in H as [_ H].
  apply IH in H; simpl; lia.
Qed.

Lemma dirMatch_eq (s : jsstring) :
  dirMatch s =
    if startsWithCI dirHeading s then
      match skipn (length dirHeading) s with
      | c :: _ =>
          if N.eqb c COLON then Some (firstn (length dirHeading + 1) s)
          else Some (firstn (length dirHeading) s)
      | [] => Some (firstn (length dirHeading) s)
      end
    else
      match s with
      | [] => None
      | _ :: s' => dirMatch s'
      end.
Proof. destruct s; reflexivity. Qed.

Lemma dirMatch_length (s d : jsstring) :
  dirMatch s = Some d -> 1 <= length d.
Proof.
  induction s as [|c s IH]; rewrite dirMatch_eq.
  - discriminate.
  - destruct (startsWithCI dirHeading (c :: s)) eqn:E; [|exact IH].
    apply startsWithCI_length in E.
    change (length dirHeading) with 19 in *.
    assert (L : forall n, 1 <= n -> 1 <= length (firstn n (c :: s)))
      by (intros n Hn; rewrite length_firstn; lia).
    destruct (skipn 19 (c :: s)) as [|x r].
    + intros H; injection H as <-. apply (L 19); lia.
    + destruct (N.eqb x COLON); intros H; injection H as <-;
        [apply (L 20) | apply (L 19)]; lia.
Qed.

Lemma indexOf_lower (s p : jsstring) : (-1 <= indexOf s p)%Z.
Proof.
  unfold indexOf.
  destruct (indexOfFrom_cases 0 s p) as [-> | (j & _ & ->)]; lia.
Qed.

Lemma occursAt_length (p s : jsstring) (i : nat) :
  occursAt p s i -> i + length p <= length s.
Proof.
  intros (before & after & -> & <-). rewrite !length_app; lia.
Qed.

Lemma occursAt_firstn_skipn (p l : jsstring) (a n i : nat) :
  p <> [] -> occursAt p (firstn n (skipn a l)) i ->
  occursAt p l (a + i) /\ i + length p <= n.
Proof.
  intros Hne (before & after & E & Hi).
  assert (Hlen : length (firstn n (skipn a l)) <= n) by apply firstn_le_length.
  rewrite E, !length_app in Hlen.
  split; [|lia].
  destruct (Nat.le_gt_cases a (length l)) as [Ha | Ha].
  - exists (firstn a l ++ before), (after ++ skipn n (skipn a l)). split.
    + rewrite <- (firstn_skipn a l) at 1.
      rewrite <- (firstn_skipn n (skipn a l)) at 1.
      rewrite E, <- !app_assoc; reflexivity.
    + rewrite length_app, length_firstn; lia.
  - exfalso. rewrite skipn_all2, firstn_nil in E by lia.
    destruct before; [destruct p; [congruence | discriminate] | discriminate].
Qed.

Lemma occursAt_slice (p l : jsstring) (start stop : Z) (i : nat) :
  p <> [] -> (0 <= start)%Z -> (0 <= stop)%Z ->
  occursAt p (slice l start (Some stop)) i ->
  exists j,
    occursAt p l j /\ (start <= Z.of_nat j)%Z /\
    (Z.of_nat (j + length p) <= stop)%Z.
Proof.
  intros Hne Hs He H. unfold slice in H.
  rewrite !clampIndex_nonneg in H by assumption.
  apply occursAt_firstn_skipn in H as [Ho Hn]; [|exact Hne].
  pose proof (occursAt_length _ _ _ Ho) as Hb.
  exists (Nat.min (Z.to_nat start) (length l) + i).
  split; [exact Ho|]. destruct p; [congruence|]. simpl in *. lia.
Qed.

Lemma occursAt_skipn (p s : jsstring) (k j : nat) :
  occursAt p s j -> k <= j -> occursAt p (skipn k s) (j - k).
Proof.
  intros (before & after & -> & <-) Hk.
  exists (skipn k before), after. split.
  - rewrite skipn_app.
    replace (k - length before) with 0 by lia. reflexivity.
  - rewrite length_skipn; reflexivity.
Qed.

Lemma indexOfAt_found (p s : jsstring) (from : Z) (j : nat) :
  occursAt p s j -> (from <= Z.of_nat j)%Z ->
  exists m,
    indexOfAt s p from = Z.of_nat m /\ m <= j /\ (from <= Z.of_nat m)%Z.
Proof.
  intros Ho Hf. unfold indexOfAt.
  pose proof (occursAt_bound _ _ _ Ho) as Hb.
  set (k := Nat.min (Z.to_nat from) (length s)).
  assert (Hk : k <= j) by (unfold k; lia).
  destruct (indexOfFrom_found (Z.of_nat k) (skipn k s) p (j - k)
              (occursAt_skipn p s k j Ho Hk)) as (j' & Hle & _ & E).
  exists (k + j'). rewrite E. unfold k in *. split; [lia | split; lia].
Qed.

Lemma slice_to_length {A : Type} (l : list A) (start : Z) :
  slice l start None = slice l start (Some (Z.of_nat (length l))).
Proof. unfold slice. rewrite clampIndex_length. reflexivity. Qed.

(** The block is cut before the first marker that follows the heading. *)
Lemma directoryBlock_cut (filtered d : jsstring) :
  dirMatch filtered = Some d ->
  exists start stop,
    (0 <= start)%Z /\ (0 <= stop)%Z /\
    (indexOf filtered d + 1 <= start)%Z /\
    directoryBlock filtered = trim (slice filtered start (Some stop)) /\
    (forall marker m,
       In marker blockMarkers ->
       indexOfAt filtered marker (indexOf filtered d + 1) = Z.of_nat m ->
       (indexOf filtered d < Z.of_nat m)%Z ->
       (stop <= Z.of_nat m)%Z).
Proof.
  intros E. unfold directoryBlock. rewrite E.
  pose proof (dirMatch_length _ _ E) as Hd.
  pose proof (indexOf_lower filtered d) as Hidx.
  set (idx := indexOf filtered d) in *.
  set (mS := indexOfAt filtered (lit "Pack Summary") (idx + 1)).
  set (mT := indexOfAt filtered (lit "Total Files") (idx + 1)).
  set (len := Z.of_nat (length filtered)).
  set (e1 := if negb (Z.eqb mS (-1)) && Z.ltb idx mS
             then Z.min len mS else len).
  set (e2 := if negb (Z.eqb mT (-1)) && Z.ltb idx mT
             then Z.min e1 mT else e1).
  assert (H1 : (0 <= e1 <= len)%Z /\ ((idx < mS)%Z -> (e1 <= mS)%Z)).
  { unfold e1, len.
    destruct (Z.eqb_spec mS (-1)); destruct (Z.ltb_spec idx mS);
      simpl; lia. }
  assert (H2 : (0 <= e2 <= e1)%Z /\ ((idx < mT)%Z -> (e2 <= mT)%Z)).
  { unfold e2.
    destruct (Z.eqb_spec mT (-1)); destruct (Z.ltb_spec idx mT);
      simpl; lia. }
  exists (idx + Z.of_nat (length d))%Z, e2.
  split; [lia|]. split; [lia|]. split; [lia|]. split.
  - destruct (Z.eqb_spec e2 len) as [-> | _]; simpl negb; cbv iota.
    + unfold len. rewrite slice_to_length. reflexivity.
    + reflexivity.
  - intros marker m [<- | [<- | []]] Em Hm.
    + fold mS in Em. rewrite <- Em in *. lia.
    + fold mT in Em. rewrite <- Em in *. lia.
Qed.

(** X12.  The directory structure stops at the markers: neither
    ["Pack Summary"] nor ["Total Files"] occurs in the block. *)
Theorem directory_block_has_no_marker :
  forall filtered marker,
    In marker blockMarkers ->
    includes (directoryBlock filtered) marker = false.
Proof.
  intros filtered marker Hm.
  assert (Hne : marker <> [])
    by (destruct Hm as [<- | [<- | []]]; discriminate).
  destruct (includes (directoryBlock filtered) marker) eqn:E;
    [|reflexivity].
  exfalso. apply includes_iff in E.
  destruct (dirMatch filtered) as [d|] eqn:Ed.
  - destruct (directoryBlock_cut filtered d Ed)
      as (start & stop & Hs & He & Hidx & Eb & Hcut).
    rewrite Eb in E. apply occurs_trim, occurs_occursAt in E as [i Hi].
    apply occursAt_slice in Hi as (j & Hj & Hsj & Hje); try assumption.
    destruct (indexOfAt_found marker filtered
                (indexOf filtered d + 1) j Hj ltac:(lia))
      as (m & Em & Hmj & Hfm).
    specialize (Hcut marker m Hm Em ltac:(lia)).
    destruct marker; [congruence|]. simpl in Hje. lia.
  - unfold directoryBlock in E. rewrite Ed in E.
    destruct E as (before & after & E).
    destruct before; [destruct marker; [congruence | discriminate]
                     | discriminate].
Qed.

Lemma directory_block_has_no_marker_witness :
  includes (directoryBlock (filterBanners asciiLower reportWithSummary))
    (lit "Total Files") = false.
Proof.
  apply (directory_block_has_no_marker
           (filterBanners asciiLower reportWithSummary)).
  right; left; reflexivity.
Defined.

(** ** The operations that run the tool *)

(** X13.  [getCodebase] always answers, and throws nothing: an ignore file
    that cannot be read and a tool that fails give the text of the error;
    otherwise the answer ends with the summary of the filtered report, and
    starts with the directory structure between its tags exactly when the
    block is not empty. *)
Theorem getCodebase_always_answers :
  forall toLowerCase pathJoin processCwd execSync w o,
    let answer :=
      getCodebase toLowerCase pathJoin processCwd execSync w o in
    let dir := workingDirOf processCwd o in
    (exists content,
       answer = Normal content /\
       (length content = 1 \/ length content = 2)) /\
    (forall e,
       getCodebaseIgnoreGlobs pathJoin (files w) dir = Throw e ->
       answer = Normal [lit "Error retrieving codebase: " ++ errorText e]) /\
    (forall ignoreFromFile e,
       getCodebaseIgnoreGlobs pathJoin (files w) dir
         = Normal ignoreFromFile ->
       execSync w (getCodebaseCommand o ignoreFromFile) (Some dir)
         = Throw e ->
       answer = Normal [lit "Error retrieving codebase: " ++ errorText e]) /\
    (forall ignoreFromFile output w',
       getCodebaseIgnoreGlobs pathJoin (files w) dir
         = Normal ignoreFromFile ->
       execSync w (getCodebaseCommand o ignoreFromFile) (Some dir)
         = Normal (output, w') ->
       let filtered := filterBanners toLowerCase output in
       exists front,
         answer = Normal (front ++ [summaryBlock filtered]) /\
         (directoryBlock filtered = [] -> front = []) /\
         (directoryBlock filtered <> [] ->
          front = [lit "<directory_structure>" ++ LF
                     :: directoryBlock filtered
                     ++ LF :: lit "</directory_structure>"])).
Proof.
  intros toLowerCase pathJoin processCwd execSync w o answer dir.
  subst answer. unfold getCodebase. fold dir.
  destruct (getCodebaseIgnoreGlobs pathJoin (files w) dir)
    as [ignoreFromFile|e0] eqn:Ei.
  - simpl bind.
    destruct (execSync w (getCodebaseCommand o ignoreFromFile) (Some dir))
      as [[output w']|e1] eqn:Ee.
    + simpl. unfold reportContent.
      split; [|split; [|split]].
      * eexists; split; [reflexivity|].
        destruct (directoryBlock (filterBanners toLowerCase output));
          [left | right]; reflexivity.
      * discriminate.
      * intros i e H; injection H as <-. rewrite Ee; discriminate.
      * intros i out w2 H; injection H as <-. rewrite Ee.
        intros H; injection H as <- <-.
        destruct (directoryBlock (filterBanners toLowerCase output))
          as [|c block].
        -- exists []. split; [reflexivity|].
           split; [reflexivity | congruence].
        -- exists [lit "<directory_structure>" ++ LF :: (c :: block)
                     ++ LF :: lit "</directory_structure>"].
           split; [reflexivity|].
           split; [discriminate | reflexivity].
    + simpl. split; [|split; [|split]].
      * eexists; split; [reflexivity | left; reflexivity].
      * discriminate.
      * intros i e H; injection H as <-. rewrite Ee.
        intros H; injection H as <-; reflexivity.
      * intros i out w2 H; injection H as <-. rewrite Ee; discriminate.
  - simpl. split; [|split; [|split]].
    + eexists; split; [reflexivity | left; reflexivity].
    + intros e H; injection H as <-; reflexivity.
    + discriminate.
    + discriminate.
Qed.

Lemma getCodebase_always_answers_witness :
  exists front,
    getCodebase asciiLower sampleJoin (lit "/work") sampleExec sampleWorld
      noOptions
      = Normal (front ++ [lit "Total Files: 3" ++ LF
                            :: lit "Pack Summary: done"]) /\
    front = [lit "<directory_structure>" ++ LF :: lit "src/"
               ++ LF :: lit "</directory_structure>"].
Proof.
  destruct (proj2 (proj2 (proj2
              (getCodebase_always_answers asciiLower sampleJoin
                 (lit "/work") sampleExec sampleWorld noOptions)))
              None reportWithSummary sampleWorld eq_refl eq_refl)
    as (front & E & _ & Hfront).
  exists front. split; [exact E|].
  apply Hfront. discriminate.
Defined.

(** X14.  [getRemoteCodebase] always answers, and throws nothing: it
    answers what the tool prints, as it is, or the text of the error of the
    tool; and its command does not depend on [cwd] nor on
    [ignorePatterns]. *)
Theorem getRemoteCodebase_always_answers :
  forall execSync w repo o,
    let answer := getRemoteCodebase execSync w repo o in
    (exists text, answer = Normal [text]) /\
    (forall output w',
       execSync w (getRemoteCodebaseCommand repo o) None
         = Normal (output, w') ->
       answer = Normal [output]) /\
    (forall e,
       execSync w (getRemoteCodebaseCommand repo o) None = Throw e ->
       answer
         = Normal [lit "Error retrieving remote codebase: "
                     ++ errorText e]) /\
    (forall dir patterns,
       getRemoteCodebaseCommand repo (withCaller o dir patterns)
         = getRemoteCodebaseCommand repo o).
Proof.
  intros execSync w repo o answer. subst answer. unfold getRemoteCodebase.
  destruct (execSync w (getRemoteCodebaseCommand repo o) None)
    as [[output w']|e0]; simpl.
  - split; [eexists; reflexivity|]. split; [|split].
    + intros out w2 H; injection H as <- _; reflexivity.
    + discriminate.
    + reflexivity.
  - split; [eexists; reflexivity|]. split; [|split].
    + discriminate.
    + intros e H; injection H as <-; reflexivity.
    + reflexivity.
Qed.

Lemma getRemoteCodebase_always_answers_witness :
  getRemoteCodebase sampleExec sampleWorld (lit "user/repo") noOptions
    = Normal [lit "Error retrieving remote codebase: Command failed"].
Proof.
  apply (proj1 (proj2 (proj2
           (getRemoteCodebase_always_answers sampleExec sampleWorld
              (lit "user/repo") noOptions)))
           (ErrorObject (lit "Command failed"))).
  reflexivity.
Defined.

(** X15.  [saveCodebase] always answers, and throws nothing.  An absolute
    [outputFile] is the output path as it is.  When the tool has run, the
    answer says that the file was not created if it does not exist
    afterwards, and gives its path and size if it does; and the operation
    never says that the codebase was saved unless the tool has run without
    error and the file exists afterwards. *)
Theorem saveCodebase_always_answers :
  forall pathJoin pathIsAbsolute processCwd megabytes execSync w outputFile o,
    let answer :=
      saveCodebase pathJoin pathIsAbsolute processCwd megabytes execSync
        w outputFile o in
    let dir := workingDirOf processCwd o in
    let outputPath :=
      outputPathOf pathJoin pathIsAbsolute processCwd o outputFile in
    let ran ignoreFromFile :=
      execSync w (saveCodebaseCommand outputPath o ignoreFromFile)
        (Some dir) in
    (exists text, answer = Normal [text]) /\
    (pathIsAbsolute outputFile = true -> outputPath = outputFile) /\
    (forall ignoreFromFile output w',
       getCodebaseIgnoreGlobs pathJoin (files w) dir
         = Normal ignoreFromFile ->
       ran ignoreFromFile = Normal (output, w') ->
       (existsSync (files w') outputPath = false ->
        answer = Normal [lit "Failed to save codebase to " ++ outputPath
                           ++ lit ". File was not created."]) /\
       (forall size,
          existsSync (files w') outputPath = true ->
          statSize w' outputPath = Normal size ->
          answer = Normal [savedText outputPath (megabytes size)])) /\
    (forall size,
       answer = Normal [savedText outputPath size] ->
       exists ignoreFromFile output w',
         getCodebaseIgnoreGlobs pathJoin (files w) dir
           = Normal ignoreFromFile /\
         ran ignoreFromFile = Normal (output, w') /\
         existsSync (files w') outputPath = true).
Proof.
  intros pathJoin pathIsAbsolute processCwd megabytes execSync w outputFile o
    answer dir outputPath ran.
  subst answer ran. unfold saveCodebase. fold dir. fold outputPath.
  split; [|split; [|split]].
  - destruct (getCodebaseIgnoreGlobs pathJoin (files w) dir) as [i|e];
      simpl; [|eexists; reflexivity].
    destruct (execSync w (saveCodebaseCommand outputPath o i) (Some dir))
      as [[output w']|e]; simpl; [|eexists; reflexivity].
    destruct (existsSync (files w') outputPath); [|eexists; reflexivity].
    destruct (statSize w' outputPath); simpl; eexists; reflexivity.
  - intros H. unfold outputPath, outputPathOf. rewrite H; reflexivity.
  - intros i output w' Hi Hr. rewrite Hi; simpl bind. rewrite Hr; simpl.
    split.
    + intros ->; reflexivity.
    + intros size -> ->; reflexivity.
  - intros size.
    destruct (getCodebaseIgnoreGlobs pathJoin (files w) dir) as [i|e];
      simpl; [|discriminate].
    destruct (execSync w (saveCodebaseCommand outputPath o i) (Some dir))
      as [[output w']|e] eqn:Er; simpl; [|discriminate].
    destruct (existsSync (files w') outputPath) eqn:Ex; [|discriminate].
    intros _. exists i, output, w'. repeat split; assumption.
Qed.

Lemma saveCodebase_always_answers_witness :
  saveCodebase sampleJoin (fun p => startsWith p [SLASH]) (lit "/work")
    (fun _ => lit "2.00") sampleExec sampleWorld (lit "project.codebase")
    (withCaller noOptions (Some []) None)
    = Normal [lit "Failed to save codebase to /work/project.codebase"
                ++ lit ". File was not created."].
Proof.
  apply (proj1 (proj1 (proj2 (proj2
           (saveCodebase_always_answers sampleJoin
              (fun p => startsWith p [SLASH]) (lit "/work")
              (fun _ => lit "2.00") sampleExec sampleWorld
              (lit "project.codebase")
              (withCaller noOptions (Some []) None))))
           None reportWithSummary sampleWorld eq_refl eq_refl)).
  reflexivity.
Defined.

(** *** The head of the commands *)

Lemma addStyle_extends (command : jsstring) (f : option Format) :
  exists rest, addStyle command f = command ++ rest.
Proof.
  destruct f; simpl; [eexists; reflexivity|].
  exists []; rewrite app_nil_r; reflexivity.
Qed.

Lemma addEither_extends (command : jsstring) (b : option bool)
  (yes no : jsstring) :
  exists rest, addEither command b yes no = command ++ rest.
Proof.
  destruct b as [[|]|]; simpl; try (eexists; reflexivity).
  exists []; rewrite app_nil_r; reflexivity.
Qed.

Lemma addInclude_extends (command : jsstring) (patterns : option jsstring) :
  exists rest, addInclude command patterns = command ++ rest.
Proof.
  unfold addInclude. destruct (truthy patterns); [eexists; reflexivity|].
  exists []; rewrite app_nil_r; reflexivity.
Qed.

Lemma addIgnore_extends (command : jsstring) (combined : option jsstring) :
  exists rest, addIgnore command combined = command ++ rest.
Proof.
  unfold addIgnore. destruct (truthy combined); [eexists; reflexivity|].
  exists []; rewrite app_nil_r; reflexivity.
Qed.

Lemma addFlag_extends (command flag : jsstring) (b : bool) :
  exists rest, (if b then command ++ flag else command) = command ++ rest.
Proof.
  destruct b; [eexists; reflexivity|].
  exists []; rewrite app_nil_r; reflexivity.
Qed.

Lemma extends_trans (a b c : jsstring) :
  (exists r, b = a ++ r) -> (exists r, c = b ++ r) -> exists r, c = a ++ r.
Proof.
  intros [r1 ->] [r2 ->]. exists (r1 ++ r2). rewrite app_assoc; reflexivity.
Qed.

Lemma addOptions_extends (command : jsstring) (o : Options) :
  exists rest, addOptions command o = command ++ rest.
Proof.
  unfold addOptions.
  repeat (eapply extends_trans;
          [|first [apply addInclude_extends | apply addEither_extends]]).
  apply addStyle_extends.
Qed.

(** X16.  The options only add to the command, after a head that they
    never change.  The command of [getCodebase] makes the tool write
    [project.codebase], the file that [searchCodebase] reads when no
    codebase is named; the command of [saveCodebase] names the output path
    between quotes, and that of [getRemoteCodebase] the repository. *)
Theorem commands_keep_their_head :
  forall o ignoreFromFile,
    (exists rest,
       getCodebaseCommand o ignoreFromFile
         = lit "npx repomix --output " ++ codebaseFileOf None ++ rest) /\
    (forall outputPath,
       exists rest,
         saveCodebaseCommand outputPath o ignoreFromFile
           = lit "npx repomix --output " ++ DQUOTE :: outputPath
               ++ DQUOTE :: rest) /\
    (forall repo,
       exists rest,
         getRemoteCodebaseCommand repo o
           = lit "npx repomix --remote " ++ repo
               ++ lit " --output remote.codebase" ++ rest).
Proof.
  intros o ignoreFromFile. split; [|split].
  - assert (H : exists rest,
              getCodebaseCommand o ignoreFromFile
                = lit "npx repomix --output project.codebase" ++ rest).
    { unfold getCodebaseCommand.
      eapply extends_trans; [|apply addIgnore_extends].
      eapply extends_trans; [|apply addInclude_extends].
      repeat (eapply extends_trans; [|apply addFlag_extends]).
      apply addStyle_extends. }
    destruct H as [rest ->]. exists rest. reflexivity.
  - intros outputPath. unfold saveCodebaseCommand.
    destruct (extends_trans _ _ _
                (addOptions_extends
                   (lit "npx repomix --output " ++ DQUOTE :: outputPath
                      ++ [DQUOTE]) o)
                (addIgnore_extends _
                   (combineIgnore (ignorePatterns o) ignoreFromFile)))
      as [rest ->].
    exists rest. rewrite <- app_assoc.
    apply (f_equal (app (lit "npx repomix --output "))).
    change ((DQUOTE :: outputPath ++ [DQUOTE]) ++ rest)
      with (DQUOTE :: ((outputPath ++ [DQUOTE]) ++ rest)).
    rewrite <- app_assoc. reflexivity.
  - intros repo. unfold getRemoteCodebaseCommand.
    destruct (addOptions_extends
                (lit "npx repomix --remote " ++ repo
                   ++ lit " --output remote.codebase") o) as [rest ->].
    exists rest. rewrite <- !app_assoc. reflexivity.
Qed.
